(** * The metadata store (package db, MemDB) and the DNS naming helpers
    (package dns) of the cluster manager, embedded in Rocq.

    Go maps are finite maps with string keys ([gmap string _]); a Go
    [error] is an [option error] with [None] for [nil]; a pointer result
    is an [option] with [None] for [nil].  The mutex of [MemDB] is held for
    the whole body of every method, so each method is one atomic step on
    the store and is written here as a function on the store. *)

From Stdlib Require Import String Ascii ZArith Lia Bool DecimalString.
From stdpp Require Import gmap strings list fin_maps.

Open Scope string_scope.
Open Scope list_scope.

(** ** Errors *)

(** The sentinel errors of packages db and dns. *)
Inductive error : Set :=
| ErrDBConditionalCheckFailed
| ErrDBRecordNotFound
| ErrDomainNotFound.

#[global] Instance error_eq_dec : EqDecision error.
Proof. solve_decision. Defined.

(** ** Entity model (package common)

    Modelled from the spec: the struct declarations of package common are
    outside the sources at hand.  The field names are those the copy
    functions of the store enumerate; identifiers, names and file content
    are strings, timestamps, counts, sizes and mode bits are integers, the
    strict-membership flag is a boolean.  The store only copies and
    compares these fields, it never computes on them. *)

Module Device.
Record t : Set := mk {
  ClusterName : string;
  DeviceName : string;
  ServiceName : string
}.
End Device.

Module Service.
Record t : Set := mk {
  ClusterName : string;
  ServiceName : string;
  ServiceUUID : string
}.
End Service.

Module ServiceAttr.
Record t : Set := mk {
  ServiceUUID : string;
  ServiceStatus : string;
  LastModified : Z;
  Replicas : Z;
  VolumeSizeGB : Z;
  ClusterName : string;
  ServiceName : string;
  DeviceName : string;
  HasStrictMembership : bool;
  DomainName : string;
  HostedZoneID : string
}.
End ServiceAttr.

(** Modelled from the spec: the element type of [Volume.Configs], declared
    in package common outside the sources at hand; a config-file reference
    names a config file of the service by its id, file name and checksum. *)
Module MemberConfig.
Record t : Set := mk {
  FileName : string;
  FileID : string;
  FileMD5 : string
}.
End MemberConfig.

(** A Go slice value is a header: a reference to a backing array and a
    length.  Assigning or copying a slice copies the header only; the
    backing array lives in the heap and is shared by every copy. *)
Abbreviation addr := nat (only parsing).

Inductive slice : Set :=
| NilSlice
| Slice (array : addr) (len : nat).

Abbreviation heap := (gmap addr (list MemberConfig.t)) (only parsing).

(** [s[0:len(s)]] read through the heap. *)
Definition slice_elems (h : heap) (s : slice) : list MemberConfig.t :=
  match s with
  | NilSlice => []
  | Slice a n => take n (default [] (h !! a))
  end.

(** [s[i] = x]; an index out of range panics ([None]). *)
Definition slice_store (h : heap) (s : slice) (i : nat) (x : MemberConfig.t)
  : option heap :=
  match s with
  | NilSlice => None
  | Slice a n =>
      if decide (i < n)%nat
      then Some (alter (λ l, <[i := x]> l) a h)
      else None
  end.

Module Volume.
Record t : Set := mk {
  ServiceUUID : string;
  VolumeID : string;
  LastModified : Z;
  DeviceName : string;
  AvailableZone : string;
  TaskID : string;
  ContainerInstanceID : string;
  ServerInstanceID : string;
  MemberName : string;
  Configs : slice
}.
End Volume.

Module ConfigFile.
Record t : Set := mk {
  ServiceUUID : string;
  FileID : string;
  FileMD5 : string;
  FileName : string;
  FileMode : Z;
  LastModified : Z;
  Content : string
}.
End ConfigFile.

(** ** The in-memory store *)

Record MemDB : Type := mkMemDB {
  devMap : gmap string Device.t;
  svcMap : gmap string Service.t;
  svcAttrMap : gmap string ServiceAttr.t;
  volMap : gmap string Volume.t;
  cfgMap : gmap string ConfigFile.t
}.

Definition NewMemDB : MemDB := mkMemDB ∅ ∅ ∅ ∅ ∅.

Definition set_devMap (d : MemDB) (m : gmap string Device.t) : MemDB :=
  mkMemDB m (svcMap d) (svcAttrMap d) (volMap d) (cfgMap d).
Definition set_svcMap (d : MemDB) (m : gmap string Service.t) : MemDB :=
  mkMemDB (devMap d) m (svcAttrMap d) (volMap d) (cfgMap d).
Definition set_svcAttrMap (d : MemDB) (m : gmap string ServiceAttr.t) : MemDB :=
  mkMemDB (devMap d) (svcMap d) m (volMap d) (cfgMap d).
Definition set_volMap (d : MemDB) (m : gmap string Volume.t) : MemDB :=
  mkMemDB (devMap d) (svcMap d) (svcAttrMap d) m (cfgMap d).
Definition set_cfgMap (d : MemDB) (m : gmap string ConfigFile.t) : MemDB :=
  mkMemDB (devMap d) (svcMap d) (svcAttrMap d) (volMap d) m.

(** *** Copy functions *)

Definition copyDevice (t : Device.t) : Device.t :=
  Device.mk (Device.ClusterName t) (Device.DeviceName t) (Device.ServiceName t).

Definition copyService (t : Service.t) : Service.t :=
  Service.mk (Service.ClusterName t) (Service.ServiceName t)
             (Service.ServiceUUID t).

Definition copyServiceAttr (t : ServiceAttr.t) : ServiceAttr.t :=
  ServiceAttr.mk (ServiceAttr.ServiceUUID t) (ServiceAttr.ServiceStatus t)
    (ServiceAttr.LastModified t) (ServiceAttr.Replicas t)
    (ServiceAttr.VolumeSizeGB t) (ServiceAttr.ClusterName t)
    (ServiceAttr.ServiceName t) (ServiceAttr.DeviceName t)
    (ServiceAttr.HasStrictMembership t) (ServiceAttr.DomainName t)
    (ServiceAttr.HostedZoneID t).

(** [Configs: t.Configs] copies the slice header: the copy refers to the
    backing array of the original. *)
Definition copyVolume (t : Volume.t) : Volume.t :=
  Volume.mk (Volume.ServiceUUID t) (Volume.VolumeID t) (Volume.LastModified t)
    (Volume.DeviceName t) (Volume.AvailableZone t) (Volume.TaskID t)
    (Volume.ContainerInstanceID t) (Volume.ServerInstanceID t)
    (Volume.MemberName t) (Volume.Configs t).

Definition copyConfigFile (t : ConfigFile.t) : ConfigFile.t :=
  ConfigFile.mk (ConfigFile.ServiceUUID t) (ConfigFile.FileID t)
    (ConfigFile.FileMD5 t) (ConfigFile.FileName t) (ConfigFile.FileMode t)
    (ConfigFile.LastModified t) (ConfigFile.Content t).

(** *** Devices *)

Definition CreateDevice (d : MemDB) (dev : Device.t) : MemDB * option error :=
  let key := Device.ClusterName dev +:+ Device.DeviceName dev in
  match devMap d !! key with
  | Some _ => (d, Some ErrDBConditionalCheckFailed)
  | None => (set_devMap d (<[key := dev]> (devMap d)), None)
  end.

Definition GetDevice (d : MemDB) (clusterName deviceName : string)
  : option Device.t * option error :=
  let key := clusterName +:+ deviceName in
  match devMap d !! key with
  | None => (None, Some ErrDBRecordNotFound)
  | Some cdev => (Some (copyDevice cdev), None)
  end.

Definition DeleteDevice (d : MemDB) (clusterName deviceName : string)
  : MemDB * option error :=
  let key := clusterName +:+ deviceName in
  match devMap d !! key with
  | None => (d, Some ErrDBRecordNotFound)
  | Some _ => (set_devMap d (delete key (devMap d)), None)
  end.

(** [for _, v := range m] visits every entry of the map once, in an order
    the language leaves open; [map_to_list] fixes one such order.  The loop
    body below writes the copy of the visited record at the running index
    of a slice allocated with [len(m)] nil pointers. *)
Definition fill_step {A : Set} (copy : A → A)
    (acc : list (option A) * nat) (kv : string * A) : list (option A) * nat :=
  (<[acc.2 := Some (copy kv.2)]> acc.1, S acc.2).

Definition listDevicesWithLimit (d : MemDB) (clusterName : string) (limit : Z)
  : list (option Device.t) * option error :=
  let devs := replicate (size (devMap d)) None in
  let r := foldl (fill_step copyDevice) (devs, 0%nat) (map_to_list (devMap d)) in
  (r.1, None).

Definition ListDevices (d : MemDB) (clusterName : string)
  : list (option Device.t) * option error :=
  listDevicesWithLimit d clusterName 0.

(** *** Services *)

Definition CreateService (d : MemDB) (svc : Service.t) : MemDB * option error :=
  let key := Service.ClusterName svc +:+ Service.ServiceName svc in
  match svcMap d !! key with
  | Some _ => (d, Some ErrDBConditionalCheckFailed)
  | None => (set_svcMap d (<[key := svc]> (svcMap d)), None)
  end.

Definition GetService (d : MemDB) (clusterName serviceName : string)
  : option Service.t * option error :=
  let key := clusterName +:+ serviceName in
  match svcMap d !! key with
  | None => (None, Some ErrDBRecordNotFound)
  | Some csvc => (Some (copyService csvc), None)
  end.

Definition DeleteService (d : MemDB) (clusterName serviceName : string)
  : MemDB * option error :=
  let key := clusterName +:+ serviceName in
  match svcMap d !! key with
  | None => (d, Some ErrDBRecordNotFound)
  | Some _ => (set_svcMap d (delete key (svcMap d)), None)
  end.

Definition listServicesWithLimit (d : MemDB) (clusterName : string) (limit : Z)
  : list (option Service.t) * option error :=
  let svcs := replicate (size (svcMap d)) None in
  let r := foldl (fill_step copyService) (svcs, 0%nat) (map_to_list (svcMap d)) in
  (r.1, None).

Definition ListServices (d : MemDB) (clusterName : string)
  : list (option Service.t) * option error :=
  listServicesWithLimit d clusterName 0.

(** *** Service attributes *)

Definition CreateServiceAttr (d : MemDB) (attr : ServiceAttr.t)
  : MemDB * option error :=
  match svcAttrMap d !! ServiceAttr.ServiceUUID attr with
  | Some _ => (d, Some ErrDBConditionalCheckFailed)
  | None =>
      (set_svcAttrMap d (<[ServiceAttr.ServiceUUID attr := attr]> (svcAttrMap d)),
       None)
  end.

Definition UpdateServiceAttr (d : MemDB) (oldAttr newAttr : ServiceAttr.t)
  : MemDB * option error :=
  match svcAttrMap d !! ServiceAttr.ServiceUUID oldAttr with
  | None => (d, Some ErrDBRecordNotFound)
  | Some _ =>
      (set_svcAttrMap d
         (<[ServiceAttr.ServiceUUID oldAttr := newAttr]> (svcAttrMap d)),
       None)
  end.

Definition GetServiceAttr (d : MemDB) (serviceUUID : string)
  : option ServiceAttr.t * option error :=
  match svcAttrMap d !! serviceUUID with
  | None => (None, Some ErrDBRecordNotFound)
  | Some cattr => (Some (copyServiceAttr cattr), None)
  end.

Definition DeleteServiceAttr (d : MemDB) (serviceUUID : string)
  : MemDB * option error :=
  match svcAttrMap d !! serviceUUID with
  | None => (d, Some ErrDBRecordNotFound)
  | Some _ => (set_svcAttrMap d (delete serviceUUID (svcAttrMap d)), None)
  end.

(** *** Volumes *)

Definition CreateVolume (d : MemDB) (vol : Volume.t) : MemDB * option error :=
  let key := Volume.ServiceUUID vol +:+ Volume.VolumeID vol in
  match volMap d !! key with
  | Some _ => (d, Some ErrDBConditionalCheckFailed)
  | None => (set_volMap d (<[key := vol]> (volMap d)), None)
  end.

Section UpdateVolume.
(** [EqualVolume] is the comparison rule of volume records, a function of
    package db declared outside the sources at hand; its third argument
    is the comparison mode, which [UpdateVolume] fixes to [true]. *)
Variable EqualVolume : Volume.t → Volume.t → bool → bool.

Definition UpdateVolume (d : MemDB) (oldVol newVol : Volume.t)
  : MemDB * option error :=
  let key := Volume.ServiceUUID oldVol +:+ Volume.VolumeID oldVol in
  match volMap d !! key with
  | None => (d, Some ErrDBRecordNotFound)
  | Some vol =>
      if negb (EqualVolume oldVol vol true)
      then (d, Some ErrDBConditionalCheckFailed)
      else (set_volMap d (<[key := newVol]> (volMap d)), None)
  end.
End UpdateVolume.

Definition GetVolume (d : MemDB) (serviceUUID volumeID : string)
  : option Volume.t * option error :=
  let key := serviceUUID +:+ volumeID in
  match volMap d !! key with
  | None => (None, Some ErrDBRecordNotFound)
  | Some cvol => (Some (copyVolume cvol), None)
  end.

(** The loop body of [listVolumesWithLimit]: append the copy of a visited
    record when its [ServiceUUID] is the one asked for. *)
Definition vol_step (serviceUUID : string)
    (vols : list (option Volume.t)) (kv : string * Volume.t)
  : list (option Volume.t) :=
  if String.eqb (Volume.ServiceUUID kv.2) serviceUUID
  then vols ++ [Some (copyVolume kv.2)]
  else vols.

Definition listVolumesWithLimit (d : MemDB) (serviceUUID : string) (limit : Z)
  : list (option Volume.t) * option error :=
  (foldl (vol_step serviceUUID) [] (map_to_list (volMap d)), None).

Definition ListVolumes (d : MemDB) (serviceUUID : string)
  : list (option Volume.t) * option error :=
  listVolumesWithLimit d serviceUUID 0.

Definition DeleteVolume (d : MemDB) (serviceUUID volumeID : string)
  : MemDB * option error :=
  let key := serviceUUID +:+ volumeID in
  match volMap d !! key with
  | None => (d, Some ErrDBRecordNotFound)
  | Some _ => (set_volMap d (delete key (volMap d)), None)
  end.

(** *** Config files *)

Definition CreateConfigFile (d : MemDB) (cfg : ConfigFile.t)
  : MemDB * option error :=
  let key := ConfigFile.ServiceUUID cfg +:+ ConfigFile.FileID cfg in
  match cfgMap d !! key with
  | Some _ => (d, Some ErrDBConditionalCheckFailed)
  | None => (set_cfgMap d (<[key := cfg]> (cfgMap d)), None)
  end.

Definition GetConfigFile (d : MemDB) (serviceUUID fileID : string)
  : option ConfigFile.t * option error :=
  let key := serviceUUID +:+ fileID in
  match cfgMap d !! key with
  | None => (None, Some ErrDBRecordNotFound)
  | Some c => (Some (copyConfigFile c), None)
  end.

Definition DeleteConfigFile (d : MemDB) (serviceUUID fileID : string)
  : MemDB * option error :=
  let key := serviceUUID +:+ fileID in
  match cfgMap d !! key with
  | None => (d, Some ErrDBRecordNotFound)
  | Some _ => (set_cfgMap d (delete key (cfgMap d)), None)
  end.

(** ** Package dns: naming helpers *)

Definition dnsNameSeparator : string := ".".

Definition GenDNSName (svcMemberName domainName : string) : string :=
  svcMemberName +:+ dnsNameSeparator +:+ domainName.

(** [strings.HasPrefix]: [len(s) >= len(prefix) && s[:len(prefix)] == prefix]. *)
Definition HasPrefix (s prefix : string) : bool :=
  (String.length prefix <=? String.length s)%nat
  && String.eqb (substring 0 (String.length prefix) s) prefix.

(** [strings.HasSuffix]:
    [len(s) >= len(suffix) && s[len(s)-len(suffix):] == suffix]. *)
Definition HasSuffix (s suffix : string) : bool :=
  (String.length suffix <=? String.length s)%nat
  && String.eqb
       (substring (String.length s - String.length suffix)
                  (String.length suffix) s)
       suffix.

(** [strings.Split(s, sep)] for a separator of one byte, which is what
    [dnsNameSeparator] is: the pieces of [s] between the occurrences of
    the separator, one piece more than there are occurrences. *)
Fixpoint Split (s : string) (sep : ascii) : list string :=
  match s with
  | EmptyString => [EmptyString]
  | String c r =>
      if Ascii.eqb c sep then EmptyString :: Split r sep
      else match Split r sep with
           | h :: t => String c h :: t
           | [] => [String c EmptyString]
           end
  end.

Definition GetDomainNameFromDNSName (dnsname : string) : string * option error :=
  let names := Split dnsname "."%char in
  if (length names <? 3)%nat then ("", Some ErrDomainNotFound)
  else
    let l := length names in
    let domain :=
      nth (l - 2) names "" +:+ dnsNameSeparator +:+ nth (l - 1) names "" in
    (domain, None).

Definition FormatMgtServiceURL (surl : string) (tlsEnabled : bool) : string :=
  if negb (HasPrefix surl "http") then
    if tlsEnabled then "https://" +:+ surl +:+ "/"
    else "http://" +:+ surl +:+ "/"
  else if negb (HasSuffix surl "/") then surl +:+ "/"
  else surl.

(** *** RegisterDNSName and its collaborators

    [RegisterDNSName] talks to two interfaces, [server.Info] and [DNS].
    Each method call is an event; a program is a tree whose nodes are the
    calls it makes and whose leaves are its results. *)

Inductive call : Set :=
| GetLocalVpcID
| GetLocalRegion
| GetLocalHostname
| GetOrCreateHostedZoneIDByName
    (domainName vpcID vpcRegion : string) (private : bool)
| UpdateServiceDNSRecord (dnsName hostname hostedZoneID : string).

(** What a call returns: a string, an error, or both. *)
Definition reply : Set := (string * option error)%type.

Inductive prog (A : Type) : Type :=
| Ret (a : A)
| Call (c : call) (k : reply → prog A).
Arguments Ret {A} a.
Arguments Call {A} c k.

Definition RegisterDNSName (domainName dnsName : string) : prog (option error) :=
  if negb (HasSuffix dnsName domainName) then Ret (Some ErrDomainNotFound)
  else
    let private := true in
    Call GetLocalVpcID (λ vpcID,
    Call GetLocalRegion (λ vpcRegion,
    Call (GetOrCreateHostedZoneIDByName domainName vpcID.1 vpcRegion.1 private)
      (λ r,
        let hostedZoneID := r.1 in
        match r.2 with
        | Some err => Ret (Some err)
        | None =>
            Call GetLocalHostname (λ hostname,
            Call (UpdateServiceDNSRecord dnsName hostname.1 hostedZoneID)
              (λ e, Ret e.2))
        end))).

(** Running a program against collaborators: [handler] answers a call in
    a collaborator state [S]; the run records every call made. *)
Fixpoint run {A S : Type} (handler : call → S → reply * S)
    (p : prog A) (st : S) (log : list call) : A * S * list call :=
  match p with
  | Ret a => (a, st, log)
  | Call c k =>
      let r := handler c st in
      run handler (k r.1) r.2 (log ++ [c])
  end.

(** ** The storage interface, by entity kind

    The store offers the same operations for every entity kind.  To state
    what holds "for every entity kind" once, a record of any kind and an
    identity of any kind are sums, and [Create] and [Get] dispatch to the
    method of the kind. *)

Inductive record : Type :=
| RDevice (dev : Device.t)
| RService (svc : Service.t)
| RServiceAttr (attr : ServiceAttr.t)
| RVolume (vol : Volume.t)
| RConfigFile (cfg : ConfigFile.t).

Inductive identity : Type :=
| IDevice (clusterName deviceName : string)
| IService (clusterName serviceName : string)
| IServiceAttr (serviceUUID : string)
| IVolume (serviceUUID volumeID : string)
| IConfigFile (serviceUUID fileID : string).

Definition identity_of (r : record) : identity :=
  match r with
  | RDevice dev => IDevice (Device.ClusterName dev) (Device.DeviceName dev)
  | RService svc => IService (Service.ClusterName svc) (Service.ServiceName svc)
  | RServiceAttr attr => IServiceAttr (ServiceAttr.ServiceUUID attr)
  | RVolume vol => IVolume (Volume.ServiceUUID vol) (Volume.VolumeID vol)
  | RConfigFile cfg => IConfigFile (ConfigFile.ServiceUUID cfg) (ConfigFile.FileID cfg)
  end.

Definition Create (d : MemDB) (r : record) : MemDB * option error :=
  match r with
  | RDevice dev => CreateDevice d dev
  | RService svc => CreateService d svc
  | RServiceAttr attr => CreateServiceAttr d attr
  | RVolume vol => CreateVolume d vol
  | RConfigFile cfg => CreateConfigFile d cfg
  end.

Definition tag {A : Type} (f : A → record) (r : option A * option error)
  : option record * option error :=
  (f <$> r.1, r.2).

Definition Get (d : MemDB) (i : identity) : option record * option error :=
  match i with
  | IDevice c n => tag RDevice (GetDevice d c n)
  | IService c n => tag RService (GetService d c n)
  | IServiceAttr u => tag RServiceAttr (GetServiceAttr d u)
  | IVolume u v => tag RVolume (GetVolume d u v)
  | IConfigFile u f => tag RConfigFile (GetConfigFile d u f)
  end.

(** The trailing slashes of a URL: it ends with one and not with two. *)
Definition one_trailing_slash (url : string) : bool :=
  HasSuffix url "/" && negb (HasSuffix url "//").

(** ** Sample records and stores used in the examples below *)

Module Sample.
Definition dev_ab_c : Device.t := Device.mk "ab" "c" "pg".
Definition dev_a_bc : Device.t := Device.mk "a" "bc" "redis".
Definition dev_c1 : Device.t := Device.mk "c1" "/dev/xvdf" "pg".
Definition svc_c1 : Service.t := Service.mk "c1" "pg" "u1".

Definition attr (uuid status : string) (replicas : Z) : ServiceAttr.t :=
  ServiceAttr.mk uuid status 0 replicas 10 "c1" "pg" "/dev/xvdf" false
                 "c1-openmanage.com" "zone1".

Definition cfgA : MemberConfig.t := MemberConfig.mk "pg.conf" "f1" "md5-1".
Definition cfgB : MemberConfig.t := MemberConfig.mk "evil.conf" "f2" "md5-2".

Definition vol (uuid volID : string) (configs : slice) : Volume.t :=
  Volume.mk uuid volID 0 "/dev/xvdf" "az-1" "task" "ci" "si" "pg-0" configs.

Definition cfgfile : ConfigFile.t :=
  ConfigFile.mk "u1" "f1" "md5-1" "pg.conf" 384 0 "port=5432".

(** A heap holding one backing array, at address 0. *)
Definition heap0 : heap := {[ 0%nat := [cfgA] ]}.

(** Collaborators that answer every call with a fixed string and count
    the calls they receive. *)
Definition counting (c : call) (n : nat) : reply * nat :=
  (("x", None), S n).
End Sample.

(** ** The mutating methods as operations

    [Delete] dispatches to the delete method of the kind, as [Create] and
    [Get] do.  An [op] is one call of a mutating method of the store;
    [exec] performs it and [exec_all] performs a sequence of calls,
    whatever each returns, as a client of the store would. *)

Definition Delete (d : MemDB) (i : identity) : MemDB * option error :=
  match i with
  | IDevice c n => DeleteDevice d c n
  | IService c n => DeleteService d c n
  | IServiceAttr u => DeleteServiceAttr d u
  | IVolume u v => DeleteVolume d u v
  | IConfigFile u f => DeleteConfigFile d u f
  end.

Inductive table : Set :=
| TDevice | TService | TServiceAttr | TVolume | TConfigFile.

(** The map and the key a method reaches when it is given an identity. *)
Definition slot (i : identity) : table * string :=
  match i with
  | IDevice c n => (TDevice, c +:+ n)
  | IService c n => (TService, c +:+ n)
  | IServiceAttr u => (TServiceAttr, u)
  | IVolume u v => (TVolume, u +:+ v)
  | IConfigFile u f => (TConfigFile, u +:+ f)
  end.

Inductive op : Type :=
| OCreate (r : record)
| ODelete (i : identity)
| OUpdateServiceAttr (oldAttr newAttr : ServiceAttr.t)
| OUpdateVolume (oldVol newVol : Volume.t).

(** The identity a call names: that of the record for a create, that of
    the old record for an update. *)
Definition op_identity (o : op) : identity :=
  match o with
  | OCreate r => identity_of r
  | ODelete i => i
  | OUpdateServiceAttr oldAttr _ => identity_of (RServiceAttr oldAttr)
  | OUpdateVolume oldVol _ => identity_of (RVolume oldVol)
  end.

Definition exec (EqualVolume : Volume.t → Volume.t → bool → bool)
    (o : op) (d : MemDB) : MemDB * option error :=
  match o with
  | OCreate r => Create d r
  | ODelete i => Delete d i
  | OUpdateServiceAttr oldAttr newAttr => UpdateServiceAttr d oldAttr newAttr
  | OUpdateVolume oldVol newVol => UpdateVolume EqualVolume d oldVol newVol
  end.

Definition exec_all (EqualVolume : Volume.t → Volume.t → bool → bool)
    (ops : list op) (d : MemDB) : MemDB :=
  foldl (λ d o, (exec EqualVolume o d).1) d ops.

(** Every device, service and config file sits under the key made of its
    own identity fields. *)
Definition keyed (d : MemDB) : Prop :=
  (∀ k dev, devMap d !! k = Some dev →
     k = Device.ClusterName dev +:+ Device.DeviceName dev)
  ∧ (∀ k svc, svcMap d !! k = Some svc →
     k = Service.ClusterName svc +:+ Service.ServiceName svc)
  ∧ (∀ k cfg, cfgMap d !! k = Some cfg →
     k = ConfigFile.ServiceUUID cfg +:+ ConfigFile.FileID cfg).

(** ** Package dns: default names and addresses *)

(** [strconv.Itoa]: the decimal digits of an integer, "0" for zero, a
    leading "-" for a negative one. *)
Definition Itoa (n : Z) : string := NilZero.string_of_int (Z.to_int n).

Section Defaults.
(** The constants of package common the builders use, declared outside the
    sources at hand. *)
Variables NameSeparator DomainNameSuffix DomainSeparator DomainCom : string.
Variables ManageServiceName ControlDBServiceName : string.
Variables ManageHTTPServerPort ControlDBServerPort : Z.

Definition GenDefaultDomainName (clusterName : string) : string :=
  clusterName +:+ NameSeparator +:+ DomainNameSuffix +:+ DomainSeparator
    +:+ DomainCom.

Definition GetDefaultMgtServiceURL (cluster : string) (tlsEnabled : bool)
  : string :=
  let domain := GenDefaultDomainName cluster in
  let dnsname := GenDNSName ManageServiceName domain in
  if tlsEnabled
  then "https://" +:+ dnsname +:+ ":" +:+ Itoa ManageHTTPServerPort +:+ "/"
  else "http://" +:+ dnsname +:+ ":" +:+ Itoa ManageHTTPServerPort +:+ "/".

Definition GetDefaultControlDBAddr (cluster : string) : string :=
  let domain := GenDefaultDomainName cluster in
  let dnsname := GenDNSName ControlDBServiceName domain in
  dnsname +:+ ":" +:+ Itoa ControlDBServerPort.
End Defaults.

(** ** More sample values *)

#[global] Instance slice_eq_dec : EqDecision slice.
Proof. solve_decision. Defined.

#[global] Instance Volume_eq_dec : EqDecision Volume.t.
Proof. solve_decision. Defined.

Module Fixture.
(** A comparison rule for volumes: the two records agree on every field. *)
Definition same_volume (a b : Volume.t) (mode : bool) : bool :=
  bool_decide (a = b).

Definition vol (task : string) : Volume.t :=
  Volume.mk "u1" "v1" 0 "/dev/xvdf" "az-1" task "ci" "si" "pg-0" NilSlice.

(** Collaborators whose zone lookup fails. *)
Definition zone_fails (c : call) (n : nat) : reply * nat :=
  match c with
  | GetOrCreateHostedZoneIDByName _ _ _ _ =>
      (("", Some ErrDBRecordNotFound), S n)
  | _ => (("x", None), S n)
  end.
End Fixture.

(** * Properties of the store *)

(** The copy functions rebuild a record field by field: the copy has the
    fields of the original. *)
Lemma copyDevice_id t : copyDevice t = t.
Proof. by destruct t. Qed.

Lemma copyService_id t : copyService t = t.
Proof. by destruct t. Qed.

Lemma copyServiceAttr_id t : copyServiceAttr t = t.
Proof. by destruct t. Qed.

Lemma copyVolume_id t : copyVolume t = t.
Proof. by destruct t. Qed.

Lemma copyConfigFile_id t : copyConfigFile t = t.
Proof. by destruct t. Qed.

Create Rewrite HintDb memdb.
#[local] Hint Rewrite copyDevice_id copyService_id copyServiceAttr_id
  copyVolume_id copyConfigFile_id : memdb.

(** Unfold one store method and split on the lookup it starts with. *)
Ltac store_unfold :=
  unfold Create, Get, tag,
    CreateDevice, GetDevice, DeleteDevice,
    CreateService, GetService, DeleteService,
    CreateServiceAttr, GetServiceAttr, UpdateServiceAttr, DeleteServiceAttr,
    CreateVolume, GetVolume, DeleteVolume,
    CreateConfigFile, GetConfigFile, DeleteConfigFile,
    set_devMap, set_svcMap, set_svcAttrMap, set_volMap, set_cfgMap in *;
  simpl in *.

Ltac store_case :=
  repeat match goal with
  | H : context [match ?m !! ?k with _ => _ end] |- _ =>
      let E := fresh "E" in destruct (m !! k) eqn:E; simpl in H
  | |- context [match ?m !! ?k with _ => _ end] =>
      let E := fresh "E" in destruct (m !! k) eqn:E; simpl
  end.

Ltac store_solve :=
  store_unfold; intros; store_case; simplify_map_eq/=;
  autorewrite with memdb; try done.

(** [Get] reports [ErrDBRecordNotFound] exactly when it returns no record. *)
Lemma Get_not_found d i :
  (Get d i).2 = Some ErrDBRecordNotFound ↔ (Get d i).1 = None.
Proof. destruct i; store_solve. Qed.

(** A successful [Create] stores the record under the key of its identity,
    whatever the kind. *)
Lemma Create_Get d r :
  (Create d r).2 = None → Get (Create d r).1 (identity_of r) = (Some r, None).
Proof. destruct r; store_solve. Qed.

(** [Create] succeeds when [Get] of the identity finds nothing. *)
Lemma Create_fresh d r :
  (Get d (identity_of r)).2 = Some ErrDBRecordNotFound → (Create d r).2 = None.
Proof. destruct r; store_solve. Qed.

(** [Create] on an identity that [Get] finds fails and changes nothing. *)
Lemma Create_existing d r :
  (Get d (identity_of r)).2 = None →
  Create d r = (d, Some ErrDBConditionalCheckFailed).
Proof. destruct r; store_solve. Qed.

(** A failed [Create] leaves the store as it was. *)
Lemma Create_failed d r e :
  (Create d r).2 = Some e → (Create d r).1 = d ∧ e = ErrDBConditionalCheckFailed.
Proof. destruct r; store_solve. Qed.

(** C5: for every entity kind and every store, a successful Create(E)
    followed by Get(I), I the identity of E, returns E itself; the volume
    returned carries the slice header of E, so its config list reads the
    same in every heap.  A store in which I is absent is one case of
    "every store": nothing is assumed of the store but that Create
    succeeded. *)
Theorem create_then_get (d : MemDB) (r : record) :
  (Create d r).2 = None →
  Get (Create d r).1 (identity_of r) = (Some r, None).
Proof. apply Create_Get. Qed.

Lemma create_then_get_witness :
  Get (Create NewMemDB (RVolume (Sample.vol "u1" "v1" (Slice 0 1)))).1
      (IVolume "u1" "v1")
  = (Some (RVolume (Sample.vol "u1" "v1" (Slice 0 1))), None).
Proof.
  apply (create_then_get NewMemDB (RVolume (Sample.vol "u1" "v1" (Slice 0 1))));
    reflexivity.
Defined.

(** C4, as stated, at a store that holds no record of the identity and yet
    has its key taken.  The store holds the one device ("ab","c"); no
    device with identity ("a","bc") is stored, and GetDevice("a","bc")
    finds the device ("ab","c") under the shared key "abc".  The first
    Create of a device ("a","bc") does not succeed: it already returns
    ConditionalCheckFailed and stores nothing. *)
Lemma create_twice_first_call_fails :
  let d := (Create NewMemDB (RDevice Sample.dev_ab_c)).1 in
  ListDevices d "a" = ([Some Sample.dev_ab_c], None)
  ∧ identity_of (RDevice Sample.dev_ab_c) ≠ identity_of (RDevice Sample.dev_a_bc)
  ∧ Get d (identity_of (RDevice Sample.dev_a_bc))
    = (Some (RDevice Sample.dev_ab_c), None)
  ∧ Create d (RDevice Sample.dev_a_bc) = (d, Some ErrDBConditionalCheckFailed)
  ∧ (Create d (RDevice Sample.dev_a_bc)).2 ≠ None.
Proof. repeat split; try reflexivity; discriminate. Qed.

(** C4, amended: for every entity kind, on a store where Get of the
    identity returns RecordNotFound, the first Create succeeds, a second
    Create of a record with the same identity returns
    ConditionalCheckFailed, and the store after the second call is the
    store after the first: Get still returns the first record. *)
Theorem create_twice (d : MemDB) (r1 r2 : record) :
  identity_of r1 = identity_of r2 →
  (Get d (identity_of r1)).2 = Some ErrDBRecordNotFound →
  let first := Create d r1 in
  let second := Create first.1 r2 in
  first.2 = None
  ∧ second = (first.1, Some ErrDBConditionalCheckFailed)
  ∧ Get second.1 (identity_of r1) = (Some r1, None).
Proof.
  intros Hid Hfree first second.
  assert (Hfirst : first.2 = None) by by apply Create_fresh.
  assert (Hget : Get first.1 (identity_of r1) = (Some r1, None))
    by by apply Create_Get.
  assert (Hsecond : second = (first.1, Some ErrDBConditionalCheckFailed)).
  { apply Create_existing. rewrite <- Hid. by rewrite Hget. }
  split; [done | split; [done |]].
  by rewrite Hsecond.
Qed.

Lemma create_twice_witness :
  let first := Create NewMemDB (RConfigFile Sample.cfgfile) in
  let second :=
    Create first.1
      (RConfigFile (ConfigFile.mk "u1" "f1" "md5-9" "other.conf" 420 7 "x")) in
  first.2 = None
  ∧ second = (first.1, Some ErrDBConditionalCheckFailed)
  ∧ Get second.1 (IConfigFile "u1" "f1") = (Some (RConfigFile Sample.cfgfile), None).
Proof.
  apply (create_twice NewMemDB (RConfigFile Sample.cfgfile)
           (RConfigFile (ConfigFile.mk "u1" "f1" "md5-9" "other.conf" 420 7 "x")));
    reflexivity.
Defined.

(** C9: the device table is keyed by ClusterName + DeviceName with no
    separator, so two distinct identities with the same concatenation
    share one entry: once CreateDevice of the first succeeds, GetDevice of
    the second identity returns the first record and CreateDevice of a
    device with the second identity fails with ConditionalCheckFailed.
    ("ab","c") and ("a","bc") are such identities. *)
Theorem colliding_device_keys (d : MemDB) (dev1 dev2 : Device.t) :
  (Device.ClusterName dev1, Device.DeviceName dev1)
    ≠ (Device.ClusterName dev2, Device.DeviceName dev2) →
  Device.ClusterName dev1 +:+ Device.DeviceName dev1
    = Device.ClusterName dev2 +:+ Device.DeviceName dev2 →
  (CreateDevice d dev1).2 = None →
  let d' := (CreateDevice d dev1).1 in
  GetDevice d' (Device.ClusterName dev2) (Device.DeviceName dev2)
    = (Some dev1, None)
  ∧ CreateDevice d' dev2 = (d', Some ErrDBConditionalCheckFailed).
Proof.
  intros _ Hkey Hok d'. subst d'.
  unfold GetDevice, CreateDevice in *. rewrite <- Hkey.
  destruct (devMap d !! _) eqn:E; simplify_eq/=.
  rewrite lookup_insert_eq. by rewrite copyDevice_id.
Qed.

Lemma colliding_device_keys_witness :
  let d' := (CreateDevice NewMemDB Sample.dev_ab_c).1 in
  GetDevice d' "a" "bc" = (Some Sample.dev_ab_c, None)
  ∧ CreateDevice d' Sample.dev_a_bc = (d', Some ErrDBConditionalCheckFailed).
Proof.
  apply (colliding_device_keys NewMemDB Sample.dev_ab_c Sample.dev_a_bc);
    [discriminate | reflexivity | reflexivity].
Defined.

(** UpdateServiceAttr looks at nothing of [oldAttr] but its ServiceUUID:
    when a record is stored under it, the update succeeds and stores
    [newAttr] under that key. *)
Lemma UpdateServiceAttr_stored d oldAttr newAttr cur :
  svcAttrMap d !! ServiceAttr.ServiceUUID oldAttr = Some cur →
  UpdateServiceAttr d oldAttr newAttr
  = (set_svcAttrMap d
       (<[ServiceAttr.ServiceUUID oldAttr := newAttr]> (svcAttrMap d)), None).
Proof. intros H. unfold UpdateServiceAttr. by rewrite H. Qed.

Lemma UpdateServiceAttr_absent d oldAttr newAttr :
  svcAttrMap d !! ServiceAttr.ServiceUUID oldAttr = None →
  UpdateServiceAttr d oldAttr newAttr = (d, Some ErrDBRecordNotFound).
Proof. intros H. unfold UpdateServiceAttr. by rewrite H. Qed.

(** The sibling method: UpdateVolume compares the stored volume with
    [oldVol] under the rule it is given and succeeds exactly when a volume
    is stored under the key of [oldVol] and the rule accepts it. *)
Lemma UpdateVolume_spec (EqualVolume : Volume.t → Volume.t → bool → bool)
    d oldVol newVol :
  let key := Volume.ServiceUUID oldVol +:+ Volume.VolumeID oldVol in
  match volMap d !! key with
  | None => UpdateVolume EqualVolume d oldVol newVol = (d, Some ErrDBRecordNotFound)
  | Some vol =>
      if EqualVolume oldVol vol true
      then UpdateVolume EqualVolume d oldVol newVol
           = (set_volMap d (<[key := newVol]> (volMap d)), None)
      else UpdateVolume EqualVolume d oldVol newVol
           = (d, Some ErrDBConditionalCheckFailed)
  end.
Proof.
  intros key. unfold UpdateVolume. fold key.
  destruct (volMap d !! key); [|done].
  by destruct (EqualVolume _ _ _).
Qed.

(** UpdateVolume succeeds exactly when a volume is stored under the key of
    [oldVol] and the comparison rule accepts it against [oldVol]. *)
Lemma UpdateVolume_succeeds_iff (EqualVolume : Volume.t → Volume.t → bool → bool)
    d oldVol newVol :
  (UpdateVolume EqualVolume d oldVol newVol).2 = None
  ↔ ∃ vol, volMap d !! (Volume.ServiceUUID oldVol +:+ Volume.VolumeID oldVol)
             = Some vol
           ∧ EqualVolume oldVol vol true = true.
Proof.
  unfold UpdateVolume.
  destruct (volMap d !! _) as [vol|]; simpl.
  - destruct (EqualVolume oldVol vol true) eqn:E; simpl; split.
    + intros _. by exists vol.
    + done.
    + discriminate.
    + intros (v & Hv & He). congruence.
  - split; [discriminate | by intros (v & Hv & _)].
Qed.

(** C1: UpdateServiceAttr on a stale [oldAttr].  The store holds the
    attributes of service "u1" with status ACTIVE and 3 replicas; the
    caller passes as [oldAttr] a record with status CREATING and 1 replica.
    The claim asks for ConditionalCheckFailed; the method returns no error
    and overwrites the stored record. *)
Theorem update_service_attr_stale_old_succeeds :
  let stored := Sample.attr "u1" "ACTIVE" 3 in
  let oldAttr := Sample.attr "u1" "CREATING" 1 in
  let newAttr := Sample.attr "u1" "DELETED" 0 in
  let d := (CreateServiceAttr NewMemDB stored).1 in
  GetServiceAttr d "u1" = (Some stored, None)
  ∧ stored ≠ oldAttr
  ∧ (UpdateServiceAttr d oldAttr newAttr).2 = None
  ∧ GetServiceAttr (UpdateServiceAttr d oldAttr newAttr).1 "u1"
    = (Some newAttr, None).
Proof. repeat split; try reflexivity. discriminate. Qed.

(** C10, as stated, at a store that holds records under both "u1" and
    "u2": updating with [oldAttr] of "u1" and [newAttr] of "u2" succeeds,
    and GetServiceAttr("u2") returns the record that was stored under "u2"
    all along, not RecordNotFound. *)
Lemma update_service_attr_other_key_found :
  let a1 := Sample.attr "u1" "ACTIVE" 3 in
  let a2 := Sample.attr "u2" "ACTIVE" 5 in
  let newAttr := Sample.attr "u2" "DELETING" 0 in
  let d := (CreateServiceAttr (CreateServiceAttr NewMemDB a1).1 a2).1 in
  let d' := (UpdateServiceAttr d a1 newAttr).1 in
  GetServiceAttr d "u1" = (Some a1, None)
  ∧ ServiceAttr.ServiceUUID newAttr ≠ "u1"
  ∧ (UpdateServiceAttr d a1 newAttr).2 = None
  ∧ GetServiceAttr d' "u1" = (Some newAttr, None)
  ∧ GetServiceAttr d' "u2" = (Some a2, None)
  ∧ GetServiceAttr d' "u2" ≠ (None, Some ErrDBRecordNotFound).
Proof. repeat split; try reflexivity; discriminate. Qed.

(** C10, amended: UpdateServiceAttr never compares the identity of
    [newAttr] with that of [oldAttr]: when a record is stored under the
    ServiceUUID u of [oldAttr] and [newAttr] has ServiceUUID u' ≠ u, the
    update succeeds, GetServiceAttr(u) then returns [newAttr] with its
    ServiceUUID u', and GetServiceAttr(u') returns what it returned before
    the update: RecordNotFound when nothing was stored under u'. *)
Theorem update_service_attr_keeps_old_key (d : MemDB) (oldAttr newAttr : ServiceAttr.t) :
  (GetServiceAttr d (ServiceAttr.ServiceUUID oldAttr)).2 = None →
  ServiceAttr.ServiceUUID newAttr ≠ ServiceAttr.ServiceUUID oldAttr →
  let r := UpdateServiceAttr d oldAttr newAttr in
  r.2 = None
  ∧ GetServiceAttr r.1 (ServiceAttr.ServiceUUID oldAttr) = (Some newAttr, None)
  ∧ GetServiceAttr r.1 (ServiceAttr.ServiceUUID newAttr)
    = GetServiceAttr d (ServiceAttr.ServiceUUID newAttr)
  ∧ ((GetServiceAttr d (ServiceAttr.ServiceUUID newAttr)).2
       = Some ErrDBRecordNotFound →
     GetServiceAttr r.1 (ServiceAttr.ServiceUUID newAttr)
       = (None, Some ErrDBRecordNotFound)).
Proof.
  intros Hstored Hne r. subst r.
  unfold GetServiceAttr in Hstored.
  destruct (svcAttrMap d !! ServiceAttr.ServiceUUID oldAttr) as [cur|] eqn:E;
    [clear Hstored | done].
  rewrite (UpdateServiceAttr_stored _ _ _ _ E). simpl.
  assert (Hother :
    GetServiceAttr
      (set_svcAttrMap d
         (<[ServiceAttr.ServiceUUID oldAttr := newAttr]> (svcAttrMap d)))
      (ServiceAttr.ServiceUUID newAttr)
    = GetServiceAttr d (ServiceAttr.ServiceUUID newAttr)).
  { unfold GetServiceAttr, set_svcAttrMap. simpl.
    by rewrite lookup_insert_ne. }
  split; [done | split; [| split]].
  - unfold GetServiceAttr, set_svcAttrMap. simpl.
    rewrite lookup_insert_eq. by rewrite copyServiceAttr_id.
  - exact Hother.
  - intros Hnf. rewrite Hother.
    unfold GetServiceAttr in *.
    by destruct (svcAttrMap d !! ServiceAttr.ServiceUUID newAttr).
Qed.

Lemma update_service_attr_keeps_old_key_witness :
  let a1 := Sample.attr "u1" "ACTIVE" 3 in
  let newAttr := Sample.attr "u2" "DELETING" 0 in
  let d := (CreateServiceAttr NewMemDB a1).1 in
  let r := UpdateServiceAttr d a1 newAttr in
  r.2 = None
  ∧ GetServiceAttr r.1 "u1" = (Some newAttr, None)
  ∧ GetServiceAttr r.1 "u2" = (None, Some ErrDBRecordNotFound).
Proof.
  intros a1 newAttr d r.
  destruct (update_service_attr_keeps_old_key d a1 newAttr)
    as (H1 & H2 & _ & H4); [reflexivity | discriminate |].
  split; [exact H1 | split; [exact H2 | apply H4; reflexivity]].
Defined.

(** ** Listing *)

(** The fill loop of [listDevicesWithLimit] and [listServicesWithLimit]:
    started on a slice of as many nil pointers as there are entries to
    visit, it ends with the copy of every visited record, in visiting
    order, and no nil pointer left. *)
Lemma fill_foldl {A : Set} (copy : A → A) (l : list (string * A))
    (pre : list (option A)) :
  foldl (fill_step copy) (pre ++ replicate (length l) None, length pre) l
  = (pre ++ ((λ kv, Some (copy kv.2)) <$> l), (length pre + length l)%nat).
Proof.
  revert pre. induction l as [|kv l IH]; intros pre; simpl.
  - rewrite !app_nil_r. f_equal. lia.
  - unfold fill_step at 2. simpl.
    replace (<[length pre:=Some (copy kv.2)]>
               (pre ++ None :: replicate (length l) None))
      with ((pre ++ [Some (copy kv.2)]) ++ replicate (length l) None).
    + replace (S (length pre)) with (length (pre ++ [Some (copy kv.2)]))
        by (rewrite length_app; simpl; lia).
      rewrite IH. rewrite <- app_assoc. simpl. f_equal.
      rewrite length_app. simpl. lia.
    + rewrite <- app_assoc. simpl.
      rewrite insert_app_r_alt by lia.
      by rewrite Nat.sub_diag.
Qed.

(** [listDevicesWithLimit] returns every device of the store: neither
    argument takes part in the result. *)
Lemma listDevicesWithLimit_all d clusterName limit :
  listDevicesWithLimit d clusterName limit
  = ((λ kv, Some kv.2) <$> map_to_list (devMap d), None).
Proof.
  unfold listDevicesWithLimit. rewrite <- length_map_to_list.
  pose proof (fill_foldl copyDevice (map_to_list (devMap d)) []) as Hfill.
  simpl in Hfill. rewrite Hfill. simpl.
  f_equal. apply list_fmap_ext. intros _ kv _. by rewrite copyDevice_id.
Qed.

Lemma listServicesWithLimit_all d clusterName limit :
  listServicesWithLimit d clusterName limit
  = ((λ kv, Some kv.2) <$> map_to_list (svcMap d), None).
Proof.
  unfold listServicesWithLimit. rewrite <- length_map_to_list.
  pose proof (fill_foldl copyService (map_to_list (svcMap d)) []) as Hfill.
  simpl in Hfill. rewrite Hfill. simpl.
  f_equal. apply list_fmap_ext. intros _ kv _. by rewrite copyService_id.
Qed.

(** A stored device is listed under every cluster name. *)
Lemma ListDevices_elem d clusterName dev :
  Some dev ∈ (ListDevices d clusterName).1 ↔ ∃ key, devMap d !! key = Some dev.
Proof.
  unfold ListDevices. rewrite listDevicesWithLimit_all. simpl.
  rewrite list_elem_of_fmap. split.
  - intros ([k v] & Heq & Hin). simplify_eq/=.
    exists k. by apply elem_of_map_to_list.
  - intros (k & Hk). exists (k, dev). split; [done|].
    by apply elem_of_map_to_list.
Qed.

(** The append loop of [listVolumesWithLimit] keeps the visited volumes
    whose ServiceUUID is the one asked for. *)
Lemma vol_foldl serviceUUID (l : list (string * Volume.t)) acc :
  foldl (vol_step serviceUUID) acc l
  = acc ++ ((λ kv, Some kv.2)
              <$> filter (λ kv, Volume.ServiceUUID kv.2 = serviceUUID) l).
Proof.
  revert acc. induction l as [|kv l IH]; intros acc; simpl.
  - by rewrite app_nil_r.
  - rewrite IH. unfold vol_step. rewrite filter_cons.
    destruct (String.eqb_spec (Volume.ServiceUUID kv.2) serviceUUID) as [He|Hne].
    + rewrite decide_True by done. rewrite <- app_assoc. simpl.
      by rewrite copyVolume_id.
    + by rewrite decide_False by done.
Qed.

(** [ListVolumes] returns the stored volumes of the service asked for, and
    only those, without error; none stored, the result is empty. *)
Lemma ListVolumes_elem d serviceUUID vol :
  Some vol ∈ (ListVolumes d serviceUUID).1
  ↔ ∃ key, volMap d !! key = Some vol ∧ Volume.ServiceUUID vol = serviceUUID.
Proof.
  unfold ListVolumes, listVolumesWithLimit. simpl.
  rewrite vol_foldl. simpl. rewrite list_elem_of_fmap. split.
  - intros ([k v] & Heq & Hin). simplify_eq/=.
    apply list_elem_of_filter in Hin as [Hu Hin]. simpl in Hu.
    exists k. split; [by apply elem_of_map_to_list | done].
  - intros (k & Hk & Hu). exists (k, vol). split; [done|].
    apply list_elem_of_filter. split; [done | by apply elem_of_map_to_list].
Qed.

Lemma ListVolumes_no_error d serviceUUID :
  (ListVolumes d serviceUUID).2 = None
  ∧ ∀ p, p ∈ (ListVolumes d serviceUUID).1 → is_Some p.
Proof.
  split; [done|]. unfold ListVolumes, listVolumesWithLimit. simpl.
  rewrite vol_foldl. simpl. intros p Hp.
  apply list_elem_of_fmap in Hp as (kv & -> & _). by eexists.
Qed.

(** C2: ListDevices and ListServices on a partition that holds nothing.
    The store holds one device and one service, both of cluster "c1".
    Listing cluster "c2" must return an empty collection; both methods
    return the record of "c1".  ListVolumes, asked for a service without
    volumes, returns the empty collection. *)
Theorem list_devices_returns_foreign_records :
  let d0 := (CreateDevice NewMemDB Sample.dev_c1).1 in
  let d1 := (CreateService d0 Sample.svc_c1).1 in
  let d := (CreateVolume d1 (Sample.vol "u1" "v1" NilSlice)).1 in
  ListDevices d "c2" = ([Some Sample.dev_c1], None)
  ∧ Device.ClusterName Sample.dev_c1 ≠ "c2"
  ∧ ListServices d "c2" = ([Some Sample.svc_c1], None)
  ∧ Service.ClusterName Sample.svc_c1 ≠ "c2"
  ∧ ListVolumes d "u2" = ([], None)
  ∧ ListVolumes d "u1" = ([Some (Sample.vol "u1" "v1" NilSlice)], None).
Proof. repeat split; try reflexivity; discriminate. Qed.

(** ** Copies and aliasing *)

(** The volume GetVolume returns has the slice header of the stored
    volume: both refer to one backing array. *)
Lemma GetVolume_shares_header d serviceUUID volumeID got :
  GetVolume d serviceUUID volumeID = (Some got, None) →
  ∃ stored, volMap d !! (serviceUUID +:+ volumeID) = Some stored
            ∧ Volume.Configs got = Volume.Configs stored.
Proof.
  unfold GetVolume. destruct (volMap d !! _) as [stored|]; [|done].
  intros [= <-]. by exists stored.
Qed.

(** A store through a slice is seen through every slice with the same
    header. *)
Lemma slice_store_elems h a n i x l :
  h !! a = Some l → (i < n)%nat → (n ≤ length l)%nat →
  ∃ h', slice_store h (Slice a n) i x = Some h'
        ∧ slice_elems h' (Slice a n) !! i = Some x.
Proof.
  intros Hl Hi Hn. unfold slice_store, slice_elems.
  rewrite decide_True by done. eexists. split; [done|].
  rewrite lookup_alter_eq, Hl. simpl.
  rewrite lookup_take_lt by done.
  apply list_lookup_insert_eq. lia.
Qed.

(** C3: GetVolume hands out the backing array of the stored Configs.  A
    volume whose Configs slice holds the one reference [cfgA] is created;
    the caller gets it, overwrites element 0 of the Configs of the record
    it was given with [cfgB], and gets the volume again: the second Get
    returns a volume whose config list is [cfgB] where the claim asks for
    [cfgA]. *)
Theorem get_volume_aliases_configs :
  let vol := Sample.vol "u1" "v1" (Slice 0 1) in
  let d := (CreateVolume NewMemDB vol).1 in
  let got := GetVolume d "u1" "v1" in
  let h1 := slice_store Sample.heap0 (Volume.Configs vol) 0 Sample.cfgB in
  got = (Some vol, None)
  ∧ slice_elems Sample.heap0 (Volume.Configs vol) = [Sample.cfgA]
  ∧ h1 = Some {[ 0%nat := [Sample.cfgB] ]}
  ∧ GetVolume d "u1" "v1" = (Some vol, None)
  ∧ slice_elems {[ 0%nat := [Sample.cfgB] ]} (Volume.Configs vol) = [Sample.cfgB].
Proof. repeat split; reflexivity. Qed.

(** * Properties of the naming helpers *)

(** ** Strings *)

Lemma app_nil_l_s (t : string) : "" +:+ t = t.
Proof. reflexivity. Qed.

Lemma app_cons_s a (s t : string) : String a s +:+ t = String a (s +:+ t).
Proof. reflexivity. Qed.

Lemma app_nil_r_s (s : string) : s +:+ "" = s.
Proof. induction s as [|a s IH]; [done|]. by rewrite app_cons_s, IH. Qed.

Lemma app_assoc_s (s t u : string) : (s +:+ t) +:+ u = s +:+ (t +:+ u).
Proof.
  induction s as [|a s IH]; [done|]. by rewrite !app_cons_s, IH.
Qed.

Lemma length_app_s (s t : string) :
  String.length (s +:+ t) = (String.length s + String.length t)%nat.
Proof.
  induction s as [|a s IH]; [done|]. rewrite app_cons_s. simpl. by rewrite IH.
Qed.

Lemma substring_0_length (s : string) : substring 0 (String.length s) s = s.
Proof. induction s as [|a s IH]; [done|]. simpl. by rewrite IH. Qed.

Lemma substring_app_l (p t : string) :
  substring 0 (String.length p) (p +:+ t) = p.
Proof.
  induction p as [|a p IH].
  - rewrite app_nil_l_s. simpl. by destruct t.
  - rewrite app_cons_s. simpl. by rewrite IH.
Qed.

Lemma substring_app_r (p t : string) :
  substring (String.length p) (String.length t) (p +:+ t) = t.
Proof.
  induction p as [|a p IH].
  - rewrite app_nil_l_s. apply substring_0_length.
  - rewrite app_cons_s. simpl. exact IH.
Qed.

Lemma substring_split (s : string) (n : nat) :
  (n ≤ String.length s)%nat →
  s = substring 0 n s +:+ substring n (String.length s - n) s.
Proof.
  revert n. induction s as [|a s IH]; intros n Hn; simpl in *.
  - by replace n with 0%nat by lia.
  - destruct n as [|n]; simpl.
    + rewrite app_nil_l_s. by rewrite substring_0_length.
    + rewrite app_cons_s. f_equal. apply IH. lia.
Qed.

(** Two ways to cut one string: the shorter tail is a tail of the longer. *)
Lemma app_eq_app_tail (p s q t : string) :
  p +:+ s = q +:+ t → (String.length t ≤ String.length s)%nat →
  ∃ k, s = k +:+ t.
Proof.
  revert q. induction p as [|a p IH]; intros q Heq Hlen.
  - rewrite app_nil_l_s in Heq. by exists q.
  - destruct q as [|b q].
    + rewrite app_nil_l_s in Heq. subst t.
      rewrite app_cons_s in Hlen. simpl in Hlen.
      rewrite length_app_s in Hlen. lia.
    + rewrite !app_cons_s in Heq. injection Heq as _ Heq. by apply (IH q).
Qed.

Lemma app_inv_tail_s (s1 s2 t : string) : s1 +:+ t = s2 +:+ t → s1 = s2.
Proof.
  revert s2. induction s1 as [|a s1 IH]; intros s2 Heq.
  - destruct s2 as [|b s2]; [done|].
    rewrite app_nil_l_s in Heq.
    apply (f_equal String.length) in Heq.
    rewrite length_app_s in Heq. simpl in Heq. lia.
  - destruct s2 as [|b s2].
    + rewrite app_nil_l_s in Heq.
      apply (f_equal String.length) in Heq.
      rewrite length_app_s in Heq. simpl in Heq. lia.
    + rewrite !app_cons_s in Heq. injection Heq as -> Heq.
      f_equal. by apply IH.
Qed.

(** [HasSuffix s t] holds exactly when [s] ends with [t]. *)
Lemma HasSuffix_spec (s t : string) :
  HasSuffix s t = true ↔ ∃ p, s = p +:+ t.
Proof.
  unfold HasSuffix. rewrite andb_true_iff, Nat.leb_le, String.eqb_eq. split.
  - intros [Hlen Hsub].
    exists (substring 0 (String.length s - String.length t) s).
    pose proof (substring_split s (String.length s - String.length t)) as Hcut.
    replace (String.length s - (String.length s - String.length t))%nat
      with (String.length t) in Hcut by lia.
    rewrite Hsub in Hcut. apply Hcut. lia.
  - intros [p ->]. rewrite length_app_s. split; [lia|].
    replace (String.length p + String.length t - String.length t)%nat
      with (String.length p) by lia.
    apply substring_app_r.
Qed.

(** [HasPrefix s t] holds exactly when [s] starts with [t]. *)
Lemma HasPrefix_spec (s t : string) :
  HasPrefix s t = true ↔ ∃ q, s = t +:+ q.
Proof.
  unfold HasPrefix. rewrite andb_true_iff, Nat.leb_le, String.eqb_eq. split.
  - intros [Hlen Hsub].
    exists (substring (String.length t) (String.length s - String.length t) s).
    pose proof (substring_split s (String.length t) Hlen) as Hcut.
    by rewrite Hsub in Hcut.
  - intros [q ->]. rewrite length_app_s. split; [lia|].
    apply substring_app_l.
Qed.

Lemma HasSuffix_app (p t : string) : HasSuffix (p +:+ t) t = true.
Proof. apply HasSuffix_spec. by exists p. Qed.

Lemma HasSuffix_false (s t : string) :
  HasSuffix s t = false ↔ ¬ ∃ p, s = p +:+ t.
Proof.
  rewrite <- HasSuffix_spec. by destruct (HasSuffix s t).
Qed.

(** A string extended by "/" ends with "//" only if it ended with "/". *)
Lemma HasSuffix_slash_slash (x : string) :
  HasSuffix (x +:+ "/") "//" = HasSuffix x "/".
Proof.
  apply eq_true_iff_eq. rewrite !HasSuffix_spec. split.
  - intros [p Hp]. exists p.
    change "//" with ("/" +:+ "/") in Hp. rewrite <- app_assoc_s in Hp.
    by apply app_inv_tail_s in Hp.
  - intros [p ->]. exists p. by rewrite app_assoc_s.
Qed.

(** What precedes a non-empty string does not change how it ends. *)
Lemma HasSuffix_char_app (p s : string) (c : ascii) :
  s ≠ "" → HasSuffix (p +:+ s) (String c "") = HasSuffix s (String c "").
Proof.
  intros Hs. apply eq_true_iff_eq. rewrite !HasSuffix_spec. split.
  - intros [q Hq]. apply (app_eq_app_tail p s q _ Hq).
    destruct s; [done | simpl; lia].
  - intros [q ->]. exists (p +:+ q). by rewrite app_assoc_s.
Qed.

(** ** FormatMgtServiceURL *)

(** C6: FormatMgtServiceURL at "myhost/" without TLS.  The input has no
    http prefix, so "http://" is put in front and "/" behind without a look
    at how the input ends: the result is "http://myhost//", which ends with
    two slashes where the claim asks for exactly one.  The branch for an
    input with the prefix does look: "http://myhost/" is returned as it
    is. *)
Lemma format_url_two_trailing_slashes :
  HasPrefix "myhost/" "http" = false
  ∧ FormatMgtServiceURL "myhost/" false = "http://myhost//"
  ∧ HasSuffix (FormatMgtServiceURL "myhost/" false) "//" = true
  ∧ one_trailing_slash (FormatMgtServiceURL "myhost/" false) = false
  ∧ FormatMgtServiceURL "http://myhost/" false = "http://myhost/".
Proof. repeat split; reflexivity. Qed.

(** What FormatMgtServiceURL computes, branch by branch: an input without
    the prefix "http" gets "https://" (TLS) or "http://" in front and "/"
    behind; an input with the prefix is returned as it is when it ends
    with "/" and with "/" appended otherwise; in all cases the result ends
    with "/".  The result ends with exactly one "/" when the input is not
    empty and does not end with "/", and when the input has the prefix and
    itself ends with exactly one "/". *)
Theorem format_mgt_service_url (surl : string) (tlsEnabled : bool) :
  let url := FormatMgtServiceURL surl tlsEnabled in
  (HasPrefix surl "http" = false →
     url = (if tlsEnabled then "https://" else "http://") +:+ surl +:+ "/")
  ∧ (HasPrefix surl "http" = true →
     url = if HasSuffix surl "/" then surl else surl +:+ "/")
  ∧ HasSuffix url "/" = true
  ∧ (surl ≠ "" → HasSuffix surl "/" = false → one_trailing_slash url = true)
  ∧ (HasPrefix surl "http" = true → one_trailing_slash surl = true →
     one_trailing_slash url = true).
Proof.
  intros url. subst url. unfold FormatMgtServiceURL, one_trailing_slash.
  destruct (HasPrefix surl "http") eqn:Hpre; simpl.
  - (* the input starts with "http" *)
    destruct (HasSuffix surl "/") eqn:Hsuf; simpl.
    + repeat split; try done.
      intros _ Hone. by rewrite Hsuf.
    + repeat split; try done.
      * apply HasSuffix_app.
      * intros _ _. by rewrite HasSuffix_app, HasSuffix_slash_slash, Hsuf.
  - (* no prefix: a scheme in front, a slash behind *)
    assert (Hend : ∀ scheme,
      HasSuffix (scheme +:+ surl +:+ "/") "/" = true).
    { intros scheme. rewrite <- app_assoc_s. apply HasSuffix_app. }
    assert (Hone : ∀ scheme, surl ≠ "" → HasSuffix surl "/" = false →
      HasSuffix (scheme +:+ surl +:+ "/") "//" = false).
    { intros scheme Hne Hsuf. rewrite <- app_assoc_s.
      rewrite HasSuffix_slash_slash. by rewrite HasSuffix_char_app. }
    repeat split; try done.
    + by destruct tlsEnabled.
    + destruct tlsEnabled; apply Hend.
    + intros Hne Hsuf.
      destruct tlsEnabled; by rewrite Hend, Hone.
Qed.

Lemma format_mgt_service_url_witness :
  FormatMgtServiceURL "myhost:1234" false = "http://myhost:1234/"
  ∧ FormatMgtServiceURL "https://myhost:1234" false = "https://myhost:1234/"
  ∧ one_trailing_slash (FormatMgtServiceURL "myhost:1234" false) = true
  ∧ one_trailing_slash (FormatMgtServiceURL "https://myhost:1234/" true) = true.
Proof.
  destruct (format_mgt_service_url "myhost:1234" false) as (H1 & _ & _ & H4 & _).
  destruct (format_mgt_service_url "https://myhost:1234" false) as (_ & H2 & _).
  destruct (format_mgt_service_url "https://myhost:1234/" true)
    as (_ & _ & _ & _ & H5).
  split; [apply H1; reflexivity |].
  split; [apply H2; reflexivity |].
  split; [apply H4; [discriminate | reflexivity] |].
  apply H5; reflexivity.
Defined.

(** ** GetDomainNameFromDNSName *)

Lemma Split_nonempty (s : string) (sep : ascii) : Split s sep ≠ [].
Proof.
  destruct s as [|c r]; simpl; [done|].
  destruct (Ascii.eqb c sep); [done|]. by destruct (Split r sep).
Qed.

(** Joining the pieces with the separator gives the string back. *)
Lemma Split_concat (s : string) (sep : ascii) :
  String.concat (String sep "") (Split s sep) = s.
Proof.
  induction s as [|c r IH]; [done|]. simpl.
  pose proof (Split_nonempty r sep) as Hne.
  destruct (Ascii.eqb_spec c sep) as [->|Hc].
  - destruct (Split r sep) as [|h t]; [done|].
    change (String.concat (String sep "") ("" :: h :: t))
      with ("" +:+ String sep "" +:+ String.concat (String sep "") (h :: t)).
    by rewrite IH.
  - destruct (Split r sep) as [|h t]; [done|].
    destruct t as [|h' t]; simpl in *; [by rewrite IH|].
    rewrite app_cons_s. by rewrite IH.
Qed.

(** No piece contains the separator. *)
Lemma Split_no_sep (s : string) (sep : ascii) :
  Forall (λ x, ∀ p q, x ≠ p +:+ String sep q) (Split s sep).
Proof.
  induction s as [|c r IH]; simpl.
  - constructor; [|constructor]. by intros [|a p] q.
  - destruct (Ascii.eqb_spec c sep) as [->|Hc].
    + constructor; [|done]. by intros [|a p] q.
    + destruct (Split r sep) as [|h t]; [constructor; [|constructor]|].
      * intros [|a p] q; rewrite ?app_nil_l_s, ?app_cons_s; [congruence|].
        intros [= _ H]. by destruct p.
      * apply Forall_cons in IH as [Hh Ht]. constructor; [|done].
        intros [|a p] q; rewrite ?app_nil_l_s, ?app_cons_s; [congruence|].
        intros [= _ H]. by apply (Hh p q).
Qed.

(** A list of two or more elements ends with the elements at the indices
    [len - 2] and [len - 1]. *)
Lemma last_two {A : Type} (l : list A) (dflt : A) :
  (2 ≤ length l)%nat →
  ∃ pre a b, l = pre ++ [a; b]
             ∧ nth (length l - 2) l dflt = a
             ∧ nth (length l - 1) l dflt = b.
Proof.
  intros Hlen.
  destruct l as [|b l1 _] using rev_ind; [simpl in Hlen; lia|].
  destruct l1 as [|a pre _] using rev_ind; [simpl in Hlen; lia|].
  exists pre, a, b. rewrite <- app_assoc. simpl. split; [done|].
  rewrite length_app. simpl.
  replace (length pre + 2 - 2)%nat with (length pre) by lia.
  replace (length pre + 2 - 1)%nat with (S (length pre)) by lia.
  split.
  - rewrite app_nth2 by lia. by rewrite Nat.sub_diag.
  - rewrite app_nth2 by lia.
    by replace (S (length pre) - length pre)%nat with 1%nat by lia.
Qed.

(** C7: GetDomainNameFromDNSName returns ErrDomainNotFound exactly when
    splitting the input on "." yields fewer than 3 labels, and otherwise
    the last two labels joined by "."; "pg-0.c1-openmanage.com" yields
    "c1-openmanage.com" and "badname" yields ErrDomainNotFound. *)
Theorem get_domain_name_from_dns_name (dnsname : string) :
  let names := Split dnsname "."%char in
  ((GetDomainNameFromDNSName dnsname).2 = Some ErrDomainNotFound
     ↔ (length names < 3)%nat)
  ∧ ((length names < 3)%nat →
     GetDomainNameFromDNSName dnsname = ("", Some ErrDomainNotFound))
  ∧ ((3 ≤ length names)%nat →
     ∃ pre a b, names = pre ++ [a; b]
                ∧ GetDomainNameFromDNSName dnsname = (a +:+ "." +:+ b, None))
  ∧ GetDomainNameFromDNSName "pg-0.c1-openmanage.com"
    = ("c1-openmanage.com", None)
  ∧ GetDomainNameFromDNSName "badname" = ("", Some ErrDomainNotFound).
Proof.
  intros names. unfold GetDomainNameFromDNSName. fold names.
  destruct (Nat.ltb_spec (length names) 3) as [Hlt|Hge]; simpl.
  - repeat split; try done. intros Hge. lia.
  - repeat split; try done; try lia.
    intros _. destruct (last_two names "" ltac:(lia)) as (pre & a & b & Hn & Ha & Hb).
    exists pre, a, b. split; [done|]. by rewrite Ha, Hb.
Qed.

Lemma get_domain_name_from_dns_name_witness :
  GetDomainNameFromDNSName "a.b" = ("", Some ErrDomainNotFound)
  ∧ ∃ pre a b,
      Split "db-0.east.c1-openmanage.com" "."%char = pre ++ [a; b]
      ∧ GetDomainNameFromDNSName "db-0.east.c1-openmanage.com"
        = (a +:+ "." +:+ b, None).
Proof.
  destruct (get_domain_name_from_dns_name "a.b") as (_ & H2 & _).
  destruct (get_domain_name_from_dns_name "db-0.east.c1-openmanage.com")
    as (_ & _ & H3 & _).
  split; [apply H2; simpl; lia | apply H3; simpl; lia].
Defined.

(** ** RegisterDNSName *)

(** When the DNS name ends with the domain name, the collaborators are
    called: the registration of "pg-0.c1-openmanage.com" in its own domain
    makes five calls, the zone lookup and the record update among them. *)
Lemma register_calls_collaborators :
  run Sample.counting
      (RegisterDNSName "c1-openmanage.com" "pg-0.c1-openmanage.com") 0%nat []
  = (None, 5%nat,
     [GetLocalVpcID; GetLocalRegion;
      GetOrCreateHostedZoneIDByName "c1-openmanage.com" "x" "x" true;
      GetLocalHostname;
      UpdateServiceDNSRecord "pg-0.c1-openmanage.com" "x" "x"]).
Proof. reflexivity. Qed.

(** C8: when dnsName does not end with domainName, RegisterDNSName is the
    program that returns ErrDomainNotFound and makes no call: run against
    any collaborators, it leaves their state as it was and the record of
    calls empty, so neither the zone is resolved nor a record upserted. *)
Theorem register_dns_name_domain_not_found (domainName dnsName : string) :
  (¬ ∃ p, dnsName = p +:+ domainName) →
  RegisterDNSName domainName dnsName = Ret (Some ErrDomainNotFound)
  ∧ ∀ (S : Type) (handler : call → S → reply * S) (st : S),
      run handler (RegisterDNSName domainName dnsName) st []
      = (Some ErrDomainNotFound, st, []).
Proof.
  intros Hno. apply HasSuffix_false in Hno.
  unfold RegisterDNSName. rewrite Hno. simpl. by split.
Qed.

Lemma register_dns_name_domain_not_found_witness :
  RegisterDNSName "other.com" "pg-0.c1-openmanage.com"
    = Ret (Some ErrDomainNotFound)
  ∧ run Sample.counting
        (RegisterDNSName "other.com" "pg-0.c1-openmanage.com") 0%nat []
    = (Some ErrDomainNotFound, 0%nat, []).
Proof.
  destruct (register_dns_name_domain_not_found "other.com"
              "pg-0.c1-openmanage.com") as [H1 H2].
  - apply HasSuffix_false. reflexivity.
  - split; [exact H1 | apply H2].
Defined.


(** * Further properties of the store *)

Ltac call_unfold := unfold exec, Delete, op_identity, identity_of in *; store_unfold.

Lemma MemDB_eta d :
  mkMemDB (devMap d) (svcMap d) (svcAttrMap d) (volMap d) (cfgMap d) = d.
Proof. by destruct d. Qed.

(** ** Delete *)

(** Delete succeeds exactly on the identities Get finds; on the others it
    returns ErrDBRecordNotFound and changes nothing.  After a successful
    Delete the identity is gone: Get and a second Delete both return
    ErrDBRecordNotFound. *)
Theorem delete_then_get (d : MemDB) (i : identity) :
  ((Delete d i).2 = None ↔ (Get d i).2 = None)
  ∧ ((Get d i).2 = Some ErrDBRecordNotFound →
     Delete d i = (d, Some ErrDBRecordNotFound))
  ∧ ((Delete d i).2 = None →
     Get (Delete d i).1 i = (None, Some ErrDBRecordNotFound)
     ∧ Delete (Delete d i).1 i = ((Delete d i).1, Some ErrDBRecordNotFound)).
Proof.
  destruct i; call_unfold; store_case; simplify_map_eq/=; done.
Qed.

Lemma delete_then_get_witness :
  let d := (Create NewMemDB (RService Sample.svc_c1)).1 in
  Delete d (IService "c2" "pg") = (d, Some ErrDBRecordNotFound)
  ∧ Get (Delete d (IService "c1" "pg")).1 (IService "c1" "pg")
    = (None, Some ErrDBRecordNotFound)
  ∧ Delete (Delete d (IService "c1" "pg")).1 (IService "c1" "pg")
    = ((Delete d (IService "c1" "pg")).1, Some ErrDBRecordNotFound).
Proof.
  intros d.
  destruct (delete_then_get d (IService "c2" "pg")) as (_ & H2 & _).
  destruct (delete_then_get d (IService "c1" "pg")) as (_ & _ & H3).
  split; [apply H2; reflexivity | apply H3; reflexivity].
Defined.

(** Creating a record under a free identity and deleting that identity
    gives back the store one started from. *)
Theorem create_delete_round_trip (d : MemDB) (r : record) :
  (Get d (identity_of r)).2 = Some ErrDBRecordNotFound →
  Delete (Create d r).1 (identity_of r) = (d, None).
Proof.
  destruct r; call_unfold; store_case; simplify_map_eq/=; try done;
    intros _; rewrite delete_insert_id by done; by rewrite MemDB_eta.
Qed.

Lemma create_delete_round_trip_witness :
  Delete (Create NewMemDB (RDevice Sample.dev_c1)).1 (IDevice "c1" "/dev/xvdf")
  = (NewMemDB, None).
Proof.
  apply (create_delete_round_trip NewMemDB (RDevice Sample.dev_c1)).
  reflexivity.
Defined.

(** ** Failure and frame *)

(** A call that returns an error leaves the store as it was; Create fails
    with ErrDBConditionalCheckFailed only, Delete and UpdateServiceAttr
    with ErrDBRecordNotFound only, UpdateVolume with either. *)
Theorem failed_call_changes_nothing
    (EqualVolume : Volume.t → Volume.t → bool → bool)
    (o : op) (d : MemDB) (e : error) :
  (exec EqualVolume o d).2 = Some e →
  (exec EqualVolume o d).1 = d
  ∧ match o with
    | OCreate _ => e = ErrDBConditionalCheckFailed
    | ODelete _ | OUpdateServiceAttr _ _ => e = ErrDBRecordNotFound
    | OUpdateVolume _ _ =>
        e = ErrDBRecordNotFound ∨ e = ErrDBConditionalCheckFailed
    end.
Proof.
  destruct o as [r|i|oldAttr newAttr|oldVol newVol];
    [destruct r | destruct i | |];
    call_unfold; unfold UpdateVolume; store_case; simpl;
    try destruct (EqualVolume _ _ _); simpl;
    try discriminate; intros [= <-]; auto.
Qed.

Lemma failed_call_changes_nothing_witness :
  let d := (Create NewMemDB (RVolume (Fixture.vol "t1"))).1 in
  (exec Fixture.same_volume
        (OUpdateVolume (Fixture.vol "t0") (Fixture.vol "t2")) d).1 = d.
Proof.
  intros d.
  apply (failed_call_changes_nothing Fixture.same_volume
           (OUpdateVolume (Fixture.vol "t0") (Fixture.vol "t2")) d
           ErrDBConditionalCheckFailed).
  reflexivity.
Defined.

(** A call reaches one map at one key, those of the identity it names:
    what Get returns for an identity with another map or another key is
    the same before and after the call, whether the call succeeds or not. *)
Theorem call_touches_one_slot
    (EqualVolume : Volume.t → Volume.t → bool → bool)
    (o : op) (d : MemDB) (i : identity) :
  slot i ≠ slot (op_identity o) →
  Get (exec EqualVolume o d).1 i = Get d i.
Proof.
  intros Hslot.
  destruct o as [r|j|oldAttr newAttr|oldVol newVol];
    [destruct r | destruct j | |]; destruct i;
    call_unfold; unfold UpdateVolume;
    repeat match goal with
    | |- context [match ?f ?x !! ?k with _ => _ end] =>
        is_var x; destruct (f x !! k) eqn:?; simpl
    | |- context [if negb ?b then _ else _] => destruct b; simpl
    end;
    rewrite ?lookup_insert_ne, ?lookup_delete_ne by congruence;
    repeat match goal with
    | H : ?l = _ |- context [match ?l with _ => _ end] => rewrite H
    end;
    try done; by simplify_eq.
Qed.

Lemma call_touches_one_slot_witness :
  let d := (Create NewMemDB (RDevice Sample.dev_c1)).1 in
  Get (exec Fixture.same_volume (ODelete (IDevice "c1" "/dev/xvdf")) d).1
      (IService "c1" "/dev/xvdf")
  = Get d (IService "c1" "/dev/xvdf").
Proof.
  intros d.
  apply (call_touches_one_slot Fixture.same_volume
           (ODelete (IDevice "c1" "/dev/xvdf")) d (IService "c1" "/dev/xvdf")).
  discriminate.
Defined.

(** ** An invariant of the store *)

Lemma keyed_exec (EqualVolume : Volume.t → Volume.t → bool → bool) o d :
  keyed d → keyed (exec EqualVolume o d).1.
Proof.
  unfold keyed. intros (Hdev & Hsvc & Hcfg).
  destruct o as [r|i|oldAttr newAttr|oldVol newVol];
    [destruct r | destruct i | |];
    call_unfold; unfold UpdateVolume;
    repeat match goal with
    | |- context [match ?f ?x !! ?k with _ => _ end] =>
        is_var x; destruct (f x !! k) eqn:?; simpl
    | |- context [if negb ?b then _ else _] => destruct b; simpl
    end;
    (split; [|split]); intros k x Hk;
    try (apply lookup_insert_Some in Hk as [[<- <-]|[_ Hk]]);
    try (apply lookup_delete_Some in Hk as [_ Hk]);
    eauto.
Qed.

Lemma keyed_exec_all (EqualVolume : Volume.t → Volume.t → bool → bool) ops d :
  keyed d → keyed (exec_all EqualVolume ops d).
Proof.
  revert d. induction ops as [|o ops IH]; intros d Hd; [done|].
  simpl. apply IH. by apply keyed_exec.
Qed.

Lemma keyed_NewMemDB : keyed NewMemDB.
Proof. repeat split; intros k x Hk; simpl in Hk; by rewrite lookup_empty in Hk. Qed.

(** Whatever sequence of calls is made on a new store, every device,
    service and config file it holds sits under the key of its own
    identity: Get of an identity never returns a record of these kinds
    with another concatenated identity. *)
Theorem reachable_store_keyed
    (EqualVolume : Volume.t → Volume.t → bool → bool) (ops : list op) :
  let d := exec_all EqualVolume ops NewMemDB in
  (∀ c n dev, GetDevice d c n = (Some dev, None) →
     c +:+ n = Device.ClusterName dev +:+ Device.DeviceName dev)
  ∧ (∀ c n svc, GetService d c n = (Some svc, None) →
     c +:+ n = Service.ClusterName svc +:+ Service.ServiceName svc)
  ∧ (∀ u f cfg, GetConfigFile d u f = (Some cfg, None) →
     u +:+ f = ConfigFile.ServiceUUID cfg +:+ ConfigFile.FileID cfg).
Proof.
  intros d.
  destruct (keyed_exec_all EqualVolume ops NewMemDB keyed_NewMemDB)
    as (Hdev & Hsvc & Hcfg). fold d in Hdev, Hsvc, Hcfg.
  unfold GetDevice, GetService, GetConfigFile.
  repeat split; intros a b x; destruct (_ !! _) as [y|] eqn:E; try done;
    intros [= <-];
    rewrite ?copyDevice_id, ?copyService_id, ?copyConfigFile_id; eauto.
Qed.

Lemma reachable_store_keyed_witness :
  let d := exec_all Fixture.same_volume
             [OCreate (RDevice Sample.dev_ab_c);
              OCreate (RDevice Sample.dev_a_bc);
              ODelete (IDevice "a" "bc");
              OCreate (RDevice Sample.dev_a_bc)] NewMemDB in
  "a" +:+ "bc"
  = Device.ClusterName Sample.dev_a_bc +:+ Device.DeviceName Sample.dev_a_bc.
Proof.
  intros d.
  destruct (reachable_store_keyed Fixture.same_volume
              [OCreate (RDevice Sample.dev_ab_c);
               OCreate (RDevice Sample.dev_a_bc);
               ODelete (IDevice "a" "bc");
               OCreate (RDevice Sample.dev_a_bc)]) as (H & _).
  apply (H "a" "bc" Sample.dev_a_bc). reflexivity.
Defined.

(** ** Listing and the other methods *)

Lemma values_NoDup {A : Type} (key : A → string) (m : gmap string A) :
  (∀ k x, m !! k = Some x → k = key x) →
  NoDup ((λ kv : string * A, Some kv.2) <$> map_to_list m).
Proof.
  intros Hkey. apply NoDup_fmap_2_strong; [|apply NoDup_map_to_list].
  intros [k1 x1] [k2 x2] H1%elem_of_map_to_list H2%elem_of_map_to_list [= ->].
  by rewrite (Hkey _ _ H1), (Hkey _ _ H2).
Qed.

(** On a store reached from a new one by any sequence of calls, ListDevices
    and ListServices return no record twice, and a device is listed exactly
    when GetDevice of its own identity returns it. *)
Theorem list_devices_of_reachable_store
    (EqualVolume : Volume.t → Volume.t → bool → bool) (ops : list op)
    (clusterName : string) :
  let d := exec_all EqualVolume ops NewMemDB in
  NoDup (ListDevices d clusterName).1
  ∧ NoDup (ListServices d clusterName).1
  ∧ ∀ dev, Some dev ∈ (ListDevices d clusterName).1
           ↔ GetDevice d (Device.ClusterName dev) (Device.DeviceName dev)
             = (Some dev, None).
Proof.
  intros d.
  destruct (keyed_exec_all EqualVolume ops NewMemDB keyed_NewMemDB)
    as (Hdev & Hsvc & _). fold d in Hdev, Hsvc.
  unfold ListDevices, ListServices.
  rewrite listDevicesWithLimit_all, listServicesWithLimit_all. simpl.
  split.
  { by apply (values_NoDup
                (λ x, Device.ClusterName x +:+ Device.DeviceName x)). }
  split.
  { by apply (values_NoDup
                (λ x, Service.ClusterName x +:+ Service.ServiceName x)). }
  intros dev. rewrite list_elem_of_fmap. unfold GetDevice. split.
  - intros ([k x] & [= <-] & Hin%elem_of_map_to_list). simpl in *.
    rewrite <- (Hdev _ _ Hin), Hin. by rewrite copyDevice_id.
  - destruct (devMap d !! _) as [x|] eqn:E; [|done].
    rewrite copyDevice_id. intros [= ->].
    eexists (_, dev). split; [done|]. by apply elem_of_map_to_list.
Qed.

Lemma values_insert {A : Type} (m : gmap string A) k x :
  m !! k = None →
  (λ kv : string * A, Some kv.2) <$> map_to_list (<[k := x]> m)
  ≡ₚ Some x :: ((λ kv : string * A, Some kv.2) <$> map_to_list m).
Proof. intros Hk. by rewrite map_to_list_insert. Qed.

Lemma values_delete {A : Type} (m : gmap string A) k x :
  m !! k = Some x →
  Some x :: ((λ kv : string * A, Some kv.2) <$> map_to_list (delete k m))
  ≡ₚ (λ kv : string * A, Some kv.2) <$> map_to_list m.
Proof. intros Hk. by rewrite <- (map_to_list_delete m k x Hk). Qed.

(** A successful CreateDevice adds the device, and nothing else, to what
    ListDevices returns; a successful DeleteDevice takes the deleted
    device, and nothing else, out of it. *)
Theorem list_devices_after_create_delete (d : MemDB) (dev : Device.t)
    (clusterName : string) :
  ((CreateDevice d dev).2 = None →
   (ListDevices (CreateDevice d dev).1 clusterName).1
   ≡ₚ Some dev :: (ListDevices d clusterName).1)
  ∧ (GetDevice d (Device.ClusterName dev) (Device.DeviceName dev)
       = (Some dev, None) →
     Some dev ::
       (ListDevices
          (DeleteDevice d (Device.ClusterName dev) (Device.DeviceName dev)).1
          clusterName).1
     ≡ₚ (ListDevices d clusterName).1).
Proof.
  unfold ListDevices. rewrite !listDevicesWithLimit_all.
  unfold CreateDevice, GetDevice, DeleteDevice.
  destruct (devMap d !! _) as [x|] eqn:E; simpl; split; try done.
  - rewrite copyDevice_id. intros [= ->]. by apply values_delete.
  - intros _. by apply values_insert.
Qed.

Lemma list_devices_after_create_delete_witness :
  (ListDevices (CreateDevice NewMemDB Sample.dev_c1).1 "c1").1
  ≡ₚ Some Sample.dev_c1 :: (ListDevices NewMemDB "c1").1.
Proof.
  destruct (list_devices_after_create_delete NewMemDB Sample.dev_c1 "c1")
    as [H _].
  apply H. reflexivity.
Defined.

(** A successful CreateVolume adds the volume to the listing of its own
    service and leaves the listing of every other service as it was. *)
Theorem list_volumes_after_create (d : MemDB) (vol : Volume.t)
    (serviceUUID : string) :
  (CreateVolume d vol).2 = None →
  (ListVolumes (CreateVolume d vol).1 serviceUUID).1
  ≡ₚ (if decide (Volume.ServiceUUID vol = serviceUUID)
      then [Some vol] else [])
     ++ (ListVolumes d serviceUUID).1.
Proof.
  unfold ListVolumes, listVolumesWithLimit, CreateVolume.
  destruct (volMap d !! _) eqn:E; [done|]. intros _. simpl.
  rewrite !vol_foldl. simpl.
  rewrite map_to_list_insert by done. rewrite filter_cons. simpl.
  by destruct (decide (Volume.ServiceUUID vol = serviceUUID)).
Qed.

Lemma list_volumes_after_create_witness :
  (ListVolumes (CreateVolume NewMemDB (Fixture.vol "t1")).1 "u1").1
  ≡ₚ [Some (Fixture.vol "t1")] ++ (ListVolumes NewMemDB "u1").1.
Proof.
  apply (list_volumes_after_create NewMemDB (Fixture.vol "t1") "u1").
  reflexivity.
Defined.

(** ** Update as compare-and-swap *)

(** Two writers read the same volume and both update from it.  When the
    first update succeeds and the comparison rule tells the first writer's
    record from the one both had read, the second update fails with
    ErrDBConditionalCheckFailed and the first writer's record stays. *)
Theorem update_volume_second_writer_fails
    (EqualVolume : Volume.t → Volume.t → bool → bool)
    (d : MemDB) (oldVol new1 new2 : Volume.t) :
  (UpdateVolume EqualVolume d oldVol new1).2 = None →
  EqualVolume oldVol new1 true = false →
  let d1 := (UpdateVolume EqualVolume d oldVol new1).1 in
  UpdateVolume EqualVolume d1 oldVol new2
    = (d1, Some ErrDBConditionalCheckFailed)
  ∧ GetVolume d1 (Volume.ServiceUUID oldVol) (Volume.VolumeID oldVol)
    = (Some new1, None).
Proof.
  unfold UpdateVolume, GetVolume.
  destruct (volMap d !! _) as [cur|] eqn:E; [|done].
  destruct (EqualVolume oldVol cur true); [|done]. simpl.
  intros _ Hne. rewrite lookup_insert_eq, Hne. simpl.
  by rewrite copyVolume_id.
Qed.

Lemma update_volume_second_writer_fails_witness :
  let d := (CreateVolume NewMemDB (Fixture.vol "t0")).1 in
  let d1 := (UpdateVolume Fixture.same_volume d
               (Fixture.vol "t0") (Fixture.vol "t1")).1 in
  UpdateVolume Fixture.same_volume d1 (Fixture.vol "t0") (Fixture.vol "t2")
    = (d1, Some ErrDBConditionalCheckFailed)
  ∧ GetVolume d1 "u1" "v1" = (Some (Fixture.vol "t1"), None).
Proof.
  intros d.
  apply (update_volume_second_writer_fails Fixture.same_volume d
           (Fixture.vol "t0") (Fixture.vol "t1") (Fixture.vol "t2"));
    reflexivity.
Defined.

(** The read-modify-write cycle on a volume: Get a volume, Update with the
    record read as the old one.  When the record read carries the identity
    it was read under and the comparison rule accepts a record against
    itself, the update succeeds and Get then returns the new record. *)
Theorem get_then_update_volume
    (EqualVolume : Volume.t → Volume.t → bool → bool)
    (d : MemDB) (serviceUUID volumeID : string) (cur newVol : Volume.t) :
  GetVolume d serviceUUID volumeID = (Some cur, None) →
  Volume.ServiceUUID cur +:+ Volume.VolumeID cur = serviceUUID +:+ volumeID →
  EqualVolume cur cur true = true →
  (UpdateVolume EqualVolume d cur newVol).2 = None
  ∧ GetVolume (UpdateVolume EqualVolume d cur newVol).1 serviceUUID volumeID
    = (Some newVol, None).
Proof.
  unfold UpdateVolume, GetVolume. intros Hget Hkey Hrefl. rewrite Hkey.
  destruct (volMap d !! _) as [x|] eqn:E; [|done].
  rewrite copyVolume_id in Hget. injection Hget as ->.
  rewrite Hrefl. simpl. rewrite lookup_insert_eq.
  by rewrite copyVolume_id.
Qed.

Lemma get_then_update_volume_witness :
  let d := (CreateVolume NewMemDB (Fixture.vol "t0")).1 in
  (UpdateVolume Fixture.same_volume d (Fixture.vol "t0") (Fixture.vol "t1")).2
    = None
  ∧ GetVolume
      (UpdateVolume Fixture.same_volume d (Fixture.vol "t0") (Fixture.vol "t1")).1
      "u1" "v1"
    = (Some (Fixture.vol "t1"), None).
Proof.
  intros d.
  apply (get_then_update_volume Fixture.same_volume d "u1" "v1"
           (Fixture.vol "t0") (Fixture.vol "t1")); reflexivity.
Defined.

(** An update neither adds nor removes an entry: UpdateServiceAttr and
    UpdateVolume, successful or not, leave the set of identities Get finds
    as it was. *)
Theorem update_keeps_identities
    (EqualVolume : Volume.t → Volume.t → bool → bool)
    (d : MemDB) (i : identity) :
  (∀ oldAttr newAttr,
     (Get (UpdateServiceAttr d oldAttr newAttr).1 i).2 = None
     ↔ (Get d i).2 = None)
  ∧ (∀ oldVol newVol,
     (Get (UpdateVolume EqualVolume d oldVol newVol).1 i).2 = None
     ↔ (Get d i).2 = None).
Proof.
  split; intros old new.
  - unfold UpdateServiceAttr.
    destruct (svcAttrMap d !! ServiceAttr.ServiceUUID old) eqn:E; [|done].
    destruct i; call_unfold; try done.
    destruct (decide (ServiceAttr.ServiceUUID old = serviceUUID)) as [<-|Hne].
    + by rewrite lookup_insert_eq, E.
    + by rewrite lookup_insert_ne.
  - unfold UpdateVolume.
    destruct (volMap d !! _) eqn:E; [|done].
    destruct (EqualVolume old _ true); [|done].
    destruct i; call_unfold; try done.
    destruct (decide (Volume.ServiceUUID old +:+ Volume.VolumeID old
                      = serviceUUID +:+ volumeID)) as [<-|Hne].
    + by rewrite lookup_insert_eq, E.
    + by rewrite lookup_insert_ne.
Qed.


(** * Further properties of the naming helpers *)

Lemma HasPrefix_app (t q : string) : HasPrefix (t +:+ q) t = true.
Proof. apply HasPrefix_spec. by exists q. Qed.

Lemma HasPrefix_app_r (s t u : string) :
  HasPrefix s t = true → HasPrefix (s +:+ u) t = true.
Proof.
  rewrite !HasPrefix_spec. intros [q ->]. exists (q +:+ u).
  by rewrite app_assoc_s.
Qed.

(** A string that starts with "http" and ends with "/" is returned as it
    is. *)
Lemma FormatMgtServiceURL_fixed (s : string) (tls : bool) :
  HasPrefix s "http" = true → HasSuffix s "/" = true →
  FormatMgtServiceURL s tls = s.
Proof. intros Hp Hs. unfold FormatMgtServiceURL. by rewrite Hp, Hs. Qed.

(** FormatMgtServiceURL is idempotent, whatever the TLS flags: a formatted
    URL starts with "http" and ends with "/", so formatting it again
    returns it unchanged. *)
Theorem format_mgt_service_url_idempotent (surl : string) (tls tls' : bool) :
  FormatMgtServiceURL (FormatMgtServiceURL surl tls) tls'
  = FormatMgtServiceURL surl tls.
Proof.
  apply FormatMgtServiceURL_fixed.
  - unfold FormatMgtServiceURL.
    destruct (HasPrefix surl "http") eqn:Hp; simpl.
    + destruct (HasSuffix surl "/"); simpl; [done|].
      by apply HasPrefix_app_r.
    + destruct tls.
      * apply (HasPrefix_app "http" ("s://" +:+ surl +:+ "/")).
      * apply (HasPrefix_app "http" ("://" +:+ surl +:+ "/")).
  - unfold FormatMgtServiceURL.
    destruct (HasPrefix surl "http"); simpl.
    + destruct (HasSuffix surl "/") eqn:Hs; simpl; [done|].
      apply HasSuffix_app.
    + destruct tls; rewrite <- app_assoc_s; apply HasSuffix_app.
Qed.

(** The default management URL is already in the form FormatMgtServiceURL
    produces: formatting it returns it unchanged, for every cluster name,
    service name and port. *)
Theorem default_mgt_service_url_formatted
    (NameSeparator DomainNameSuffix DomainSeparator DomainCom : string)
    (ManageServiceName : string) (ManageHTTPServerPort : Z)
    (cluster : string) (tlsEnabled tls' : bool) :
  let url :=
    GetDefaultMgtServiceURL NameSeparator DomainNameSuffix DomainSeparator
      DomainCom ManageServiceName ManageHTTPServerPort cluster tlsEnabled in
  FormatMgtServiceURL url tls' = url.
Proof.
  intros url. subst url. unfold GetDefaultMgtServiceURL.
  set (dnsname := GenDNSName _ _). set (port := Itoa _).
  apply FormatMgtServiceURL_fixed; destruct tlsEnabled.
  - apply (HasPrefix_app "http" ("s://" +:+ dnsname +:+ ":" +:+ port +:+ "/")).
  - apply (HasPrefix_app "http" ("://" +:+ dnsname +:+ ":" +:+ port +:+ "/")).
  - rewrite <- !app_assoc_s. apply HasSuffix_app.
  - rewrite <- !app_assoc_s. apply HasSuffix_app.
Qed.

(** ** Labels *)

Lemma Split_app_sep (s t : string) (sep : ascii) :
  Split (s +:+ String sep t) sep = Split s sep ++ Split t sep.
Proof.
  induction s as [|c r IH].
  - rewrite app_nil_l_s. simpl. by rewrite Ascii.eqb_refl.
  - rewrite app_cons_s. simpl. rewrite IH.
    destruct (Ascii.eqb c sep); [done|].
    pose proof (Split_nonempty r sep).
    by destruct (Split r sep).
Qed.

(** A string is one label exactly when splitting it changes nothing. *)
Lemma Split_single_app (x y : string) (sep : ascii) :
  Split x sep = [x] → Split y sep = [y] → Split (x +:+ y) sep = [x +:+ y].
Proof.
  intros Hx Hy. induction x as [|c r IH].
  - by rewrite app_nil_l_s.
  - rewrite app_cons_s. simpl in *.
    destruct (Ascii.eqb c sep); [done|].
    destruct (Split r sep) as [|h t] eqn:E; [by destruct (Split_nonempty r sep)|].
    injection Hx as -> ->. by rewrite IH.
Qed.

Lemma Split_single_of_no_sep (x : string) (sep : ascii) :
  (∀ p q, x ≠ p +:+ String sep q) → Split x sep = [x].
Proof.
  induction x as [|c r IH]; intros Hno; [done|]. simpl.
  destruct (Ascii.eqb_spec c sep) as [->|Hc].
  - by destruct (Hno "" r).
  - rewrite IH; [done|]. intros p q ->. by apply (Hno (String c p) q).
Qed.

Lemma nth_last_two {A : Type} (pre : list A) (a b dflt : A) :
  nth (length (pre ++ [a; b]) - 2) (pre ++ [a; b]) dflt = a
  ∧ nth (length (pre ++ [a; b]) - 1) (pre ++ [a; b]) dflt = b.
Proof.
  rewrite length_app. simpl.
  replace (length pre + 2 - 2)%nat with (length pre) by lia.
  replace (length pre + 2 - 1)%nat with (S (length pre)) by lia.
  split.
  - rewrite app_nth2 by lia. by rewrite Nat.sub_diag.
  - rewrite app_nth2 by lia.
    by replace (S (length pre) - length pre)%nat with 1%nat by lia.
Qed.

(** The domain of a name whose labels end with [a; b], three or more in
    all. *)
Lemma GetDomainNameFromDNSName_labels (s : string) pre a b :
  Split s "."%char = pre ++ [a; b] → pre ≠ [] →
  GetDomainNameFromDNSName s = (a +:+ "." +:+ b, None).
Proof.
  intros Hs Hpre. unfold GetDomainNameFromDNSName. rewrite Hs.
  destruct (nth_last_two pre a b "") as [-> ->].
  destruct (Nat.ltb_spec (length (pre ++ [a; b])) 3) as [Hlt|]; [|done].
  rewrite length_app in Hlt. destruct pre; [done|]. simpl in Hlt. lia.
Qed.

(** GenDNSName and GetDomainNameFromDNSName: the domain extracted from the
    DNS name of a member is the domain the name was generated with, when
    that domain is made of two labels; the member name may itself contain
    dots. *)
Theorem gen_dns_name_domain_round_trip (svcMemberName a b : string) :
  Split a "."%char = [a] → Split b "."%char = [b] →
  GetDomainNameFromDNSName (GenDNSName svcMemberName (a +:+ "." +:+ b))
  = (a +:+ "." +:+ b, None).
Proof.
  intros Ha Hb.
  apply (GetDomainNameFromDNSName_labels _ (Split svcMemberName "."%char)).
  - unfold GenDNSName, dnsNameSeparator.
    change ("." +:+ a +:+ "." +:+ b) with (String "."%char (a +:+ "." +:+ b)).
    rewrite Split_app_sep.
    change ("." +:+ b) with (String "."%char b).
    by rewrite Split_app_sep, Ha, Hb.
  - apply Split_nonempty.
Qed.

Lemma gen_dns_name_domain_round_trip_witness :
  GetDomainNameFromDNSName (GenDNSName "pg-0.east" ("c1-openmanage" +:+ "." +:+ "com"))
  = ("c1-openmanage" +:+ "." +:+ "com", None).
Proof.
  apply (gen_dns_name_domain_round_trip "pg-0.east" "c1-openmanage" "com");
    reflexivity.
Defined.

(** The same round trip through GenDefaultDomainName: with "." as the
    domain separator and no dot in the cluster name, the name separator,
    the domain suffix and the top-level domain, the domain extracted from
    the DNS name of any member of the cluster is the default domain of the
    cluster. *)
Theorem default_domain_round_trip
    (NameSeparator DomainNameSuffix DomainSeparator DomainCom : string)
    (clusterName svcMemberName : string) :
  DomainSeparator = "." →
  Split clusterName "."%char = [clusterName] →
  Split NameSeparator "."%char = [NameSeparator] →
  Split DomainNameSuffix "."%char = [DomainNameSuffix] →
  Split DomainCom "."%char = [DomainCom] →
  let domain :=
    GenDefaultDomainName NameSeparator DomainNameSuffix DomainSeparator
      DomainCom clusterName in
  GetDomainNameFromDNSName (GenDNSName svcMemberName domain) = (domain, None).
Proof.
  intros -> Hc Hn Hs Ht domain. subst domain. unfold GenDefaultDomainName.
  replace (clusterName +:+ NameSeparator +:+ DomainNameSuffix +:+ "." +:+ DomainCom)
    with ((clusterName +:+ NameSeparator +:+ DomainNameSuffix) +:+ "." +:+ DomainCom)
    by by rewrite !app_assoc_s.
  apply (GetDomainNameFromDNSName_labels _ (Split svcMemberName "."%char));
    [|apply Split_nonempty].
  unfold GenDNSName, dnsNameSeparator.
  set (first := clusterName +:+ NameSeparator +:+ DomainNameSuffix).
  change ("." +:+ first +:+ "." +:+ DomainCom)
    with (String "."%char (first +:+ "." +:+ DomainCom)).
  rewrite Split_app_sep.
  change ("." +:+ DomainCom) with (String "."%char DomainCom).
  rewrite Split_app_sep, Ht. subst first.
  rewrite (Split_single_app clusterName (NameSeparator +:+ DomainNameSuffix));
    [done | done | by apply Split_single_app].
Qed.

Lemma default_domain_round_trip_witness :
  GenDefaultDomainName "-" "openmanage" "." "com" "c1" = "c1-openmanage.com"
  ∧ GetDomainNameFromDNSName (GenDNSName "pg-0" "c1-openmanage.com")
    = ("c1-openmanage.com", None).
Proof.
  split; [reflexivity|].
  apply (default_domain_round_trip "-" "openmanage" "." "com" "c1" "pg-0");
    reflexivity.
Defined.

Lemma concat_app_sep (sep : string) (l1 l2 : list string) :
  l1 ≠ [] → l2 ≠ [] →
  String.concat sep (l1 ++ l2)
  = String.concat sep l1 +:+ sep +:+ String.concat sep l2.
Proof.
  intros H1 H2. induction l1 as [|x [|x' l1] IH]; [done| |].
  - simpl. by destruct l2.
  - change (String.concat sep ((x :: x' :: l1) ++ l2))
      with (x +:+ sep +:+ String.concat sep ((x' :: l1) ++ l2)).
    rewrite IH by done.
    change (String.concat sep (x :: x' :: l1))
      with (x +:+ sep +:+ String.concat sep (x' :: l1)).
    by rewrite !app_assoc_s.
Qed.

(** What GetDomainNameFromDNSName accepts, split as the function sees it:
    a non-empty list of leading labels and the two labels of the domain. *)
Lemma GetDomainNameFromDNSName_inv (dnsname domain : string) :
  GetDomainNameFromDNSName dnsname = (domain, None) →
  ∃ pre a b, pre ≠ [] ∧ Split dnsname "."%char = pre ++ [a; b]
             ∧ domain = a +:+ "." +:+ b.
Proof.
  unfold GetDomainNameFromDNSName.
  destruct (Nat.ltb_spec (length (Split dnsname "."%char)) 3) as [|Hge]; [done|].
  destruct (last_two (Split dnsname "."%char) "" ltac:(lia))
    as (pre & a & b & Hs & -> & ->).
  intros [= <-]. exists pre, a, b. split; [|done].
  intros ->. rewrite Hs in Hge. simpl in Hge. lia.
Qed.

(** Every name GetDomainNameFromDNSName accepts is GenDNSName of some
    member name and the domain it returns; so the name ends with that
    domain, which is what RegisterDNSName checks first. *)
Theorem extracted_domain_generates_name (dnsname domain : string) :
  GetDomainNameFromDNSName dnsname = (domain, None) →
  (∃ svcMemberName, dnsname = GenDNSName svcMemberName domain)
  ∧ HasSuffix dnsname domain = true.
Proof.
  intros (pre & a & b & Hpre & Hs & ->)%GetDomainNameFromDNSName_inv.
  assert (Hname : dnsname
    = GenDNSName (String.concat "." pre) (a +:+ "." +:+ b)).
  { rewrite <- (Split_concat dnsname "."%char) at 1. rewrite Hs.
    by rewrite concat_app_sep. }
  split; [by eexists|].
  rewrite Hname at 1. unfold GenDNSName.
  rewrite <- app_assoc_s. apply HasSuffix_app.
Qed.

Lemma extracted_domain_generates_name_witness :
  (∃ svcMemberName,
     "pg-0.c1-openmanage.com" = GenDNSName svcMemberName "c1-openmanage.com")
  ∧ HasSuffix "pg-0.c1-openmanage.com" "c1-openmanage.com" = true.
Proof.
  apply (extracted_domain_generates_name "pg-0.c1-openmanage.com"
           "c1-openmanage.com").
  reflexivity.
Defined.

(** The domain GetDomainNameFromDNSName returns has two labels: given back
    to the function, it is rejected with ErrDomainNotFound. *)
Theorem extracted_domain_has_two_labels (dnsname domain : string) :
  GetDomainNameFromDNSName dnsname = (domain, None) →
  length (Split domain "."%char) = 2%nat
  ∧ GetDomainNameFromDNSName domain = ("", Some ErrDomainNotFound).
Proof.
  intros (pre & a & b & Hpre & Hs & ->)%GetDomainNameFromDNSName_inv.
  pose proof (Split_no_sep dnsname "."%char) as Hno. rewrite Hs in Hno.
  apply Forall_app in Hno as [_ Hno].
  apply Forall_cons in Hno as [Ha Hno].
  apply Forall_cons in Hno as [Hb _].
  assert (Hsplit : Split (a +:+ "." +:+ b) "."%char = [a; b]).
  { change ("." +:+ b) with (String "."%char b).
    rewrite Split_app_sep.
    by rewrite (Split_single_of_no_sep a), (Split_single_of_no_sep b). }
  unfold GetDomainNameFromDNSName. by rewrite Hsplit.
Qed.

Lemma extracted_domain_has_two_labels_witness :
  length (Split "c1-openmanage.com" "."%char) = 2%nat
  ∧ GetDomainNameFromDNSName "c1-openmanage.com"
    = ("", Some ErrDomainNotFound).
Proof.
  apply (extracted_domain_has_two_labels "a.b.pg-0.c1-openmanage.com"
           "c1-openmanage.com").
  reflexivity.
Defined.

(** ** RegisterDNSName past the suffix check *)

(** When dnsName ends with domainName, RegisterDNSName asks the server for
    its VPC and region, then resolves the zone of domainName in that VPC
    and region, always as a private zone.  If the zone lookup returns an
    error, that error is the result and no record is upserted; otherwise
    the host name is read and one record is upserted for dnsName in the
    zone the lookup returned, and the result is what the upsert returns. *)
Theorem register_dns_name_calls {S : Type}
    (handler : call → S → reply * S) (st : S) (domainName dnsName : string) :
  (∃ p, dnsName = p +:+ domainName) →
  let r1 := handler GetLocalVpcID st in
  let r2 := handler GetLocalRegion r1.2 in
  let zone := GetOrCreateHostedZoneIDByName domainName r1.1.1 r2.1.1 true in
  let r3 := handler zone r2.2 in
  let r4 := handler GetLocalHostname r3.2 in
  let upsert := UpdateServiceDNSRecord dnsName r4.1.1 r3.1.1 in
  let r5 := handler upsert r4.2 in
  run handler (RegisterDNSName domainName dnsName) st []
  = match r3.1.2 with
    | Some err => (Some err, r3.2, [GetLocalVpcID; GetLocalRegion; zone])
    | None =>
        (r5.1.2, r5.2,
         [GetLocalVpcID; GetLocalRegion; zone; GetLocalHostname; upsert])
    end.
Proof.
  intros Hsuf%HasSuffix_spec. unfold RegisterDNSName. rewrite Hsuf. simpl.
  by destruct (handler _ (handler GetLocalRegion _).2).1.2.
Qed.

Lemma register_dns_name_calls_witness :
  run Fixture.zone_fails
      (RegisterDNSName "c1-openmanage.com" "pg-0.c1-openmanage.com") 0%nat []
  = (Some ErrDBRecordNotFound, 3%nat,
     [GetLocalVpcID; GetLocalRegion;
      GetOrCreateHostedZoneIDByName "c1-openmanage.com" "x" "x" true]).
Proof.
  apply (register_dns_name_calls Fixture.zone_fails 0%nat
           "c1-openmanage.com" "pg-0.c1-openmanage.com").
  apply HasSuffix_spec. reflexivity.
Defined.


(** * Further properties of the store: aliasing and key collisions *)

(** CreateVolume stores the slice header of the record it is given, so the
    store and the caller share one backing array: an element the caller
    overwrites in its own record after the call is what GetVolume returns
    from then on. *)
Theorem create_volume_keeps_callers_array (d : MemDB) (vol : Volume.t)
    (h : gmap nat (list MemberConfig.t)) (a n i : nat)
    (l : list MemberConfig.t) (x : MemberConfig.t) :
  (CreateVolume d vol).2 = None →
  Volume.Configs vol = Slice a n →
  h !! a = Some l → (i < n)%nat → (n ≤ length l)%nat →
  ∃ h' got,
    slice_store h (Volume.Configs vol) i x = Some h'
    ∧ GetVolume (CreateVolume d vol).1
        (Volume.ServiceUUID vol) (Volume.VolumeID vol) = (Some got, None)
    ∧ slice_elems h' (Volume.Configs got) !! i = Some x.
Proof.
  intros Hok Hcfg Hl Hi Hn.
  destruct (slice_store_elems h a n i x l Hl Hi Hn) as (h' & Hst & Hel).
  exists h', vol. rewrite Hcfg. split; [done|]. split; [|done].
  unfold CreateVolume, GetVolume in *.
  destruct (volMap d !! _); [done|]. simpl.
  rewrite lookup_insert_eq. by rewrite copyVolume_id.
Qed.

Lemma create_volume_keeps_callers_array_witness :
  ∃ h' got,
    slice_store Sample.heap0 (Slice 0 1) 0 Sample.cfgB = Some h'
    ∧ GetVolume (CreateVolume NewMemDB (Sample.vol "u1" "v1" (Slice 0 1))).1
        "u1" "v1" = (Some got, None)
    ∧ slice_elems h' (Volume.Configs got) !! 0%nat = Some Sample.cfgB.
Proof.
  apply (create_volume_keeps_callers_array NewMemDB
           (Sample.vol "u1" "v1" (Slice 0 1)) Sample.heap0 0 1 0
           [Sample.cfgA] Sample.cfgB);
    [reflexivity | reflexivity | reflexivity | lia | simpl; lia].
Defined.

(** DeleteDevice on an identity whose concatenation is that of a stored
    device deletes that device, though its identity is another one: Get of
    the stored device's own identity then returns ErrDBRecordNotFound. *)
Theorem delete_device_of_colliding_identity (d : MemDB) (dev : Device.t)
    (clusterName deviceName : string) :
  (clusterName, deviceName)
    ≠ (Device.ClusterName dev, Device.DeviceName dev) →
  clusterName +:+ deviceName
    = Device.ClusterName dev +:+ Device.DeviceName dev →
  GetDevice d (Device.ClusterName dev) (Device.DeviceName dev)
    = (Some dev, None) →
  (DeleteDevice d clusterName deviceName).2 = None
  ∧ GetDevice (DeleteDevice d clusterName deviceName).1
      (Device.ClusterName dev) (Device.DeviceName dev)
    = (None, Some ErrDBRecordNotFound).
Proof.
  intros _ Hkey. unfold GetDevice, DeleteDevice. rewrite Hkey.
  destruct (devMap d !! _) eqn:E; [|done]. intros _. simpl.
  by rewrite lookup_delete_eq.
Qed.

Lemma delete_device_of_colliding_identity_witness :
  let d := (CreateDevice NewMemDB Sample.dev_ab_c).1 in
  (DeleteDevice d "a" "bc").2 = None
  ∧ GetDevice (DeleteDevice d "a" "bc").1 "ab" "c"
    = (None, Some ErrDBRecordNotFound).
Proof.
  intros d.
  apply (delete_device_of_colliding_identity d Sample.dev_ab_c "a" "bc");
    [discriminate | reflexivity | reflexivity].
Defined.

(** An identity that was deleted can be created again: after a successful
    Delete, Create of a record with that identity succeeds and Get returns
    the new record. *)
Theorem delete_then_create (d : MemDB) (r : record) :
  (Delete d (identity_of r)).2 = None →
  (Create (Delete d (identity_of r)).1 r).2 = None
  ∧ Get (Create (Delete d (identity_of r)).1 r).1 (identity_of r)
    = (Some r, None).
Proof.
  intros Hdel.
  assert (Hfree : (Get (Delete d (identity_of r)).1 (identity_of r)).2
                  = Some ErrDBRecordNotFound).
  { destruct r; call_unfold; store_case; by simplify_map_eq/=. }
  split; [by apply Create_fresh | apply Create_Get; by apply Create_fresh].
Qed.

Lemma delete_then_create_witness :
  let d := (Create NewMemDB (RConfigFile Sample.cfgfile)).1 in
  (Create (Delete d (IConfigFile "u1" "f1")).1 (RConfigFile Sample.cfgfile)).2
    = None
  ∧ Get (Create (Delete d (IConfigFile "u1" "f1")).1
           (RConfigFile Sample.cfgfile)).1 (IConfigFile "u1" "f1")
    = (Some (RConfigFile Sample.cfgfile), None).
Proof.
  intros d.
  apply (delete_then_create d (RConfigFile Sample.cfgfile)). reflexivity.
Defined.
